(** * Friendlytime: the chat relay, the connection registry and the REST
    endpoints of the server, as a shallow embedding.

    The server keeps three SQLite tables (users, bookings, messages), a
    process-wide [Map<number, WebSocket>] called [clients], and one closure
    variable [userId] per WebSocket connection.  Tables are lists of rows in
    rowid order together with the AUTOINCREMENT counter; the [clients] map and
    the set of live WebSocket objects are finite maps.  Handlers are functions
    from the server state to an outcome that records the state and the frames
    sent so far, also when the handler throws. *)

From Stdlib Require Import ZArith QArith.
From stdpp Require Import gmap strings list sorting.

Open Scope Z_scope.

(** ** Time

    The wall clock is read in milliseconds since the epoch.  SQLite's
    [CURRENT_TIMESTAMP] is the text 'YYYY-MM-DD HH:MM:SS' of that reading cut
    to whole seconds; it is kept here as the number of whole seconds, whose
    numeric order is the order of the fixed-width text.  [new
    Date().toISOString()] keeps the milliseconds; it is kept as the reading
    itself. *)

Definition CURRENT_TIMESTAMP (wall_ms : Z) : Z := wall_ms `div` 1000.
Definition toISOString (wall_ms : Z) : Z := wall_ms.

(** The instant, in milliseconds, that a stored [created_at] denotes. *)
Definition datetime_ms (created_at : Z) : Z := 1000 * created_at.

(** The clock readings a handler takes: one by the store while it runs an
    INSERT, one by [new Date()] when a push payload is built. *)
Record clock := { at_insert : Z; at_push : Z }.

(** ** Rows *)

Inductive role := customer | friend.

Global Instance role_eq_dec : EqDecision role.
Proof. solve_decision. Defined.

Record user := {
  u_id : Z;
  name : string;
  email : string;
  u_role : role;
  city : option string;
  age : option Z;
  languages : option string;
  interests : option string;
  about : option string;
  hourly_rate : option Z;
  verified : Z;
  rating : Q
}.

Record booking := {
  b_id : Z;
  customer_id : Z;
  friend_id : Z;
  activity : string;
  duration : string;
  status : string;
  b_created_at : Z
}.

Record message := {
  m_id : Z;
  sender_id : Z;
  receiver_id : Z;
  m_content : string;
  created_at : Z
}.

(** A table: its rows in rowid order and the largest rowid ever handed out
    (the sqlite_sequence entry of an AUTOINCREMENT key). *)
Record table (R : Type) := { rows : list R; last_rowid : Z }.
Arguments rows {R} _.
Arguments last_rowid {R} _.

Definition empty_table {R : Type} : table R := {| rows := []; last_rowid := 0 |}.

Definition append_row {R : Type} (t : table R) (mk : Z → R) : table R :=
  {| rows := rows t ++ [mk (last_rowid t + 1)]; last_rowid := last_rowid t + 1 |}.

(** The database file.  [foreign_keys] is the connection's pragma; the driver
    opens every connection with it switched on and the server never changes
    it. *)
Record database := {
  users : table user;
  bookings : table booking;
  messages : table message;
  foreign_keys : bool
}.

Inductive sqlite_error :=
| SQLITE_CONSTRAINT_NOTNULL (column : string)
| SQLITE_CONSTRAINT_UNIQUE (column : string)
| SQLITE_CONSTRAINT_FOREIGNKEY.

(** ** Statements *)

(** CREATE TABLE IF NOT EXISTS on a fresh file. *)
Definition empty_db : database :=
  {| users := empty_table; bookings := empty_table; messages := empty_table;
     foreign_keys := true |}.

(** INSERT INTO users (...) VALUES (?, ...): [name] and [email] are NOT NULL
    (never null here, being strings), [email] is UNIQUE, [role] is one of the
    two values the CHECK allows. *)
Definition insertUser (d : database) (mk : Z → user) : sqlite_error + database :=
  let u := mk (last_rowid (users d) + 1) in
  if bool_decide (email u ∈ email <$> rows (users d))
  then inl (SQLITE_CONSTRAINT_UNIQUE "users.email")
  else inr {| users := append_row (users d) mk; bookings := bookings d;
              messages := messages d; foreign_keys := foreign_keys d |}.

(** REFERENCES users(id), checked when the pragma is on. *)
Definition references_user (d : database) (id : Z) : bool :=
  negb (foreign_keys d) || bool_decide (id ∈ u_id <$> rows (users d)).

(** INSERT INTO bookings (customer_id, friend_id, activity, duration)
    VALUES (?, ?, ?, ?): status and created_at take their defaults. *)
Definition insert_booking (d : database) (now : Z)
    (customerId friendId : Z) (activity duration : string)
    : sqlite_error + (database * Z) :=
  if references_user d customerId && references_user d friendId then
    let mk id := {| b_id := id; customer_id := customerId; friend_id := friendId;
                    activity := activity; duration := duration;
                    status := "pending";
                    b_created_at := CURRENT_TIMESTAMP now |} in
    inr ({| users := users d; bookings := append_row (bookings d) mk;
            messages := messages d; foreign_keys := foreign_keys d |},
         last_rowid (bookings d) + 1)
  else inl SQLITE_CONSTRAINT_FOREIGNKEY.

(** INSERT INTO messages (sender_id, receiver_id, content) VALUES (?, ?, ?):
    [content] is NOT NULL; a chat frame without text content binds null. *)
Definition insert_message (d : database) (now : Z)
    (senderId receiverId : Z) (content : option string)
    : sqlite_error + database :=
  match content with
  | None => inl (SQLITE_CONSTRAINT_NOTNULL "messages.content")
  | Some c =>
    let mk id := {| m_id := id; sender_id := senderId; receiver_id := receiverId;
                    m_content := c; created_at := CURRENT_TIMESTAMP now |} in
    inr {| users := users d; bookings := bookings d;
           messages := append_row (messages d) mk;
           foreign_keys := foreign_keys d |}
  end.

(** ORDER BY created_at ASC.  The rows reach the sorter in rowid order and
    rows with equal keys leave it in the order they entered: a stable
    insertion sort. *)
Fixpoint place (m : message) (l : list message) : list message :=
  match l with
  | [] => [m]
  | x :: l' =>
    if created_at m <=? created_at x then m :: x :: l' else x :: place m l'
  end.

Definition order_by_created_at (l : list message) : list message :=
  foldr place [] l.

(** WHERE (sender_id = ? AND receiver_id = ?) OR (sender_id = ? AND
    receiver_id = ?), bound to (userId, otherId, otherId, userId). *)
Definition exchanged (userId otherId : Z) (m : message) : Prop :=
  (sender_id m = userId ∧ receiver_id m = otherId)
  ∨ (sender_id m = otherId ∧ receiver_id m = userId).

Global Instance exchanged_dec a b m : Decision (exchanged a b m).
Proof. unfold exchanged. apply _. Defined.

Definition select_messages (d : database) (userId otherId : Z) : list message :=
  order_by_created_at (filter (exchanged userId otherId) (rows (messages d))).

(** WHERE role = 'friend' and WHERE id = ? AND role = 'friend'. *)
Definition is_friend (u : user) : Prop := u_role u = friend.
Definition is_friend_with_id (id : Z) (u : user) : Prop :=
  u_id u = id ∧ u_role u = friend.

Global Instance is_friend_dec u : Decision (is_friend u).
Proof. unfold is_friend. apply _. Defined.
Global Instance is_friend_with_id_dec id u : Decision (is_friend_with_id id u).
Proof. unfold is_friend_with_id. apply _. Defined.


(** ** Seeding *)

Definition and_then {A B : Type} (r : sqlite_error + A) (f : A → sqlite_error + B)
    : sqlite_error + B :=
  match r with inl e => inl e | inr a => f a end.

Notation "r >>- f" := (and_then r f) (at level 60, right associativity).

Definition seed_user (name email : string) (r : role) (city : string) (age : Z)
    (languages interests about : string) (hourly_rate verified : Z) (rating : Q)
    (id : Z) : user :=
  {| u_id := id; name := name; email := email; u_role := r; city := Some city;
     age := Some age; languages := Some languages; interests := Some interests;
     about := Some about; hourly_rate := Some hourly_rate; verified := verified;
     rating := rating |}.

(** Seed some data if empty. *)
Definition seed (d : database) : sqlite_error + database :=
  if bool_decide (length (rows (users d)) = 0%nat) then
    insertUser d (seed_user "Aarav" "aarav@example.com" friend "Mumbai" 24
      "Hindi, English" "Movies, Cricket"
      "Love exploring new cafes and talking about cinema." 800 1 (48 # 10)) >>- λ d,
    insertUser d (seed_user "Ishani" "ishani@example.com" friend "Delhi" 22
      "Hindi, English, Punjabi" "Travel, Photography"
      "Avid traveler looking for companions for city tours." 1000 1 (49 # 10)) >>- λ d,
    insertUser d (seed_user "Rohan" "rohan@example.com" friend "Bangalore" 26
      "Kannada, English" "Tech, Gaming"
      "Let's grab a coffee and talk about the latest tech trends." 750 1 (47 # 10)) >>- λ d,
    insertUser d (seed_user "Priya" "priya@example.com" friend "Pune" 23
      "Marathi, Hindi, English" "Books, Art"
      "Quiet companion for library visits or art galleries." 900 1 (50 # 10))
  else inr d.

(** The database the server starts with on a fresh file. *)
Definition initial_db : database :=
  match seed empty_db with inr d => d | inl _ => empty_db end.

(** ** The WebSocket server *)

Inductive ready_state := CONNECTING | OPEN | CLOSING | CLOSED.

Global Instance ready_state_eq_dec : EqDecision ready_state.
Proof. solve_decision. Defined.

(** A WebSocket object is known by a number; [userId] is the closure
    variable of its connection handler. *)
Record socket := { userId : option Z; readyState : ready_state }.

Record server := {
  db : database;
  clients : gmap Z nat;
  sockets : gmap nat socket;
  next_socket : nat
}.

(** Frames a client sends, after JSON.parse. *)
Inductive frame :=
| auth (userId : option Z)
| chat (senderId receiverId : Z) (content : option string)
| other.

(** The object the relay serialises and sends. *)
Record payload := {
  type : string;
  senderId : Z;
  content : option string;
  createdAt : Z
}.

(** What a handler did: the state it left and the frames it sent, to which
    socket, in order; [Threw] when it ended in an exception. *)
Inductive outcome :=
| Returned (s : server) (sent : list (nat * payload))
| Threw (e : sqlite_error) (s : server) (sent : list (nat * payload)).

(** JavaScript truthiness of [userId : number | null]. *)
Definition truthy (v : option Z) : bool :=
  match v with Some n => negb (n =? 0) | None => false end.

Definition with_db (s : server) (d : database) : server :=
  {| db := d; clients := clients s; sockets := sockets s;
     next_socket := next_socket s |}.

Definition with_clients (s : server) (c : gmap Z nat) : server :=
  {| db := db s; clients := c; sockets := sockets s;
     next_socket := next_socket s |}.

Definition with_sockets (s : server) (k : gmap nat socket) : server :=
  {| db := db s; clients := clients s; sockets := k;
     next_socket := next_socket s |}.

Definition set_userId (v : option Z) (k : socket) : socket :=
  {| userId := v; readyState := readyState k |}.

Definition set_readyState (r : ready_state) (k : socket) : socket :=
  {| userId := userId k; readyState := r |}.

(** [receiverWs.readyState === WebSocket.OPEN] *)
Definition is_open (s : server) (ws : nat) : bool :=
  match sockets s !! ws with
  | Some k => bool_decide (readyState k = OPEN)
  | None => false
  end.

(** wss.on("connection"): a new socket, open, with [userId = null]. *)
Definition on_connection (s : server) : outcome :=
  Returned
    {| db := db s; clients := clients s;
       sockets := <[next_socket s := {| userId := None; readyState := OPEN |}]> (sockets s);
       next_socket := S (next_socket s) |}
    [].

(** ws.on("message") of the socket [ws]. *)
Definition on_message (ws : nat) (k : clock) (m : frame) (s : server) : outcome :=
  match m with
  | auth v =>
    let s1 := with_sockets s (alter (set_userId v) ws (sockets s)) in
    match v with
    | Some id =>
      if truthy v then Returned (with_clients s1 (<[id := ws]> (clients s1))) []
      else Returned s1 []
    | None => Returned s1 []
    end
  | chat senderId receiverId content =>
    match insert_message (db s) (at_insert k) senderId receiverId content with
    | inl e => Threw e s []
    | inr d =>
      let s1 := with_db s d in
      match clients s1 !! receiverId with
      | Some receiverWs =>
        if is_open s1 receiverWs then
          Returned s1
            [(receiverWs,
              {| type := "chat"; senderId := senderId; content := content;
                 createdAt := toISOString (at_push k) |})]
        else Returned s1 []
      | None => Returned s1 []
      end
    end
  | other => Returned s []
  end.

(** ws.on("close") of the socket [ws]. *)
Definition on_close (ws : nat) (s : server) : outcome :=
  match sockets s !! ws with
  | Some k =>
    match userId k with
    | Some id =>
      if truthy (userId k) then Returned (with_clients s (delete id (clients s))) []
      else Returned s []
    | None => Returned s []
    end
  | None => Returned s []
  end.

(** What happens at the server: a client connects, a frame arrives on a
    socket, a socket starts its closing handshake, a socket is closed. *)
Inductive event :=
| connected
| received (ws : nat) (k : clock) (m : frame)
| closing (ws : nat)
| closed (ws : nat).

Definition step (s : server) (ev : event) : outcome :=
  match ev with
  | connected => on_connection s
  | received ws k m => on_message ws k m s
  | closing ws =>
    Returned (with_sockets s (alter (set_readyState CLOSING) ws (sockets s))) []
  | closed ws =>
    on_close ws (with_sockets s (alter (set_readyState CLOSED) ws (sockets s)))
  end.

(** Events are handled one after the other, each to completion; an
    exception that leaves a handler ends the run. *)
Fixpoint run (s : server) (evs : list event) : outcome :=
  match evs with
  | [] => Returned s []
  | ev :: evs' =>
    match step s ev with
    | Returned s1 sent1 =>
      match run s1 evs' with
      | Returned s2 sent2 => Returned s2 (sent1 ++ sent2)
      | Threw e s2 sent2 => Threw e s2 (sent1 ++ sent2)
      end
    | Threw e s1 sent1 => Threw e s1 sent1
    end
  end.

Definition initial_server : server :=
  {| db := initial_db; clients := ∅; sockets := ∅; next_socket := 0 |}.

(** ** The REST routes *)

Inductive body :=
| json_users (l : list user)
| json_user (u : user)
| json_messages (l : list message)
| json_id (id : Z)
| json_error (error : string)
| error_page (e : sqlite_error).

Record response := { status_code : Z; res_body : body }.

(** GET /api/friends *)
Definition get_friends (d : database) : response :=
  {| status_code := 200; res_body := json_users (filter is_friend (rows (users d))) |}.

(** GET /api/friends/:id *)
Definition get_friend (d : database) (id : Z) : response :=
  match head (filter (is_friend_with_id id) (rows (users d))) with
  | Some f => {| status_code := 200; res_body := json_user f |}
  | None => {| status_code := 404; res_body := json_error "Friend not found" |}
  end.

(** GET /api/messages/:userId/:otherId *)
Definition get_messages (d : database) (userId otherId : Z) : response :=
  {| status_code := 200; res_body := json_messages (select_messages d userId otherId) |}.

(** POST /api/bookings; an exception of the statement reaches the
    framework's error handler, which answers 500. *)
Definition post_bookings (d : database) (now : Z)
    (customerId friendId : Z) (activity duration : string) : database * response :=
  match insert_booking d now customerId friendId activity duration with
  | inr (d', id) => (d', {| status_code := 200; res_body := json_id id |})
  | inl e => (d, {| status_code := 500; res_body := error_page e |})
  end.

(** ** Notions the properties are stated with *)

(** Ascending order of creation time. *)
Definition not_later (x y : message) : Prop := created_at x ≤ created_at y.

(** No row of the table has a rowid above the counter. *)
Definition rowids_bounded {R : Type} (key : R → Z) (t : table R) : Prop :=
  Forall (λ r, key r ≤ last_rowid t) (rows t).


(** The receiver's registry entry is a socket whose connection is open. *)
Definition deliverable (s : server) (receiverId : Z) (ws : nat) : Prop :=
  clients s !! receiverId = Some ws
  ∧ ∃ k, sockets s !! ws = Some k ∧ readyState k = OPEN.

(** The rows that the chat frames among [evs] give, in the order in which
    the frames are handled, the first one taking the rowid after [last]. *)
Fixpoint chat_rows (last : Z) (evs : list event) : list message :=
  match evs with
  | [] => []
  | received _ k (chat a b (Some c)) :: evs' =>
    {| m_id := last + 1; sender_id := a; receiver_id := b; m_content := c;
       created_at := CURRENT_TIMESTAMP (at_insert k) |} :: chat_rows (last + 1) evs'
  | _ :: evs' => chat_rows last evs'
  end.

(** A server with two open sockets, user 1 bound to socket 0. *)
Definition bound_to_first : server :=
  {| db := initial_db;
     clients := {[ 1 := 0%nat ]};
     sockets := {[ 0%nat := {| userId := Some 1; readyState := OPEN |};
                   1%nat := {| userId := None; readyState := OPEN |} ]};
     next_socket := 2 |}.

(** ** Runs and request sequences *)

Definition state_of (o : outcome) : server :=
  match o with Returned s _ => s | Threw _ s _ => s end.

Definition frames_of (o : outcome) : list (nat * payload) :=
  match o with Returned _ sent => sent | Threw _ _ sent => sent end.

(** The body of a POST /api/bookings request. *)
Record booking_request := {
  customerId : Z;
  friendId : Z;
  req_activity : string;
  req_duration : string
}.

(** Booking requests served one after the other, each with the clock
    reading of its INSERT. *)
Fixpoint post_all (d : database) (reqs : list (Z * booking_request))
    : database * list response :=
  match reqs with
  | [] => (d, [])
  | (now, r) :: reqs' =>
    let '(d1, res) :=
      post_bookings d now (customerId r) (friendId r) (req_activity r) (req_duration r) in
    let '(d2, ress) := post_all d1 reqs' in
    (d2, res :: ress)
  end.

(** The ids that the responses of successful requests carry. *)
Definition assigned_ids (ress : list response) : list Z :=
  omap (λ res, match res_body res with json_id id => Some id | _ => None end) ress.

(** The rowids of a table are positive, strictly increasing along the rows,
    and none is above the counter. *)
Definition table_ok {R : Type} (key : R → Z) (t : table R) : Prop :=
  0 ≤ last_rowid t
  ∧ StronglySorted Z.lt (key <$> rows t)
  ∧ Forall (λ r, 0 < key r ≤ last_rowid t) (rows t).

Definition db_ok (d : database) : Prop :=
  table_ok u_id (users d) ∧ table_ok b_id (bookings d) ∧ table_ok m_id (messages d)
  ∧ NoDup (email <$> rows (users d)).

(** ** The client (App.tsx) *)

(** Text is a string of code units below 256.  Among those, the white space
    and line terminators that [String.prototype.trim] strips are TAB, LF, VT,
    FF, CR, SP and NBSP. *)
Definition white_space (c : Ascii.ascii) : bool :=
  bool_decide (Ascii.nat_of_ascii c ∈ [9; 10; 11; 12; 13; 32; 160]%nat).

Fixpoint trimStart (s : string) : string :=
  match s with
  | EmptyString => EmptyString
  | String c s' => if white_space c then trimStart s' else s
  end.

Fixpoint trimEnd (s : string) : string :=
  match s with
  | EmptyString => EmptyString
  | String c s' =>
    match trimEnd s' with
    | EmptyString => if white_space c then EmptyString else String c EmptyString
    | t => String c t
    end
  end.

Definition trim (s : string) : string := trimEnd (trimStart s).

(** The text has white space only (or nothing at all). *)
Definition blank (s : string) : Prop :=
  Forall (λ c, white_space c = true) (String.list_ascii_of_string s).

(** [s.split(sep)] for a separator of one code unit. *)
Fixpoint split (sep : Ascii.ascii) (s : string) : list string :=
  match s with
  | EmptyString => [EmptyString]
  | String c s' =>
    if Ascii.eqb c sep then EmptyString :: split sep s'
    else match split sep s' with
         | t :: ts => String c t :: ts
         | [] => [String c EmptyString]
         end
  end.

(** The code unit of ','. *)
Definition comma : Ascii.ascii := Ascii.ascii_of_nat 44.

(** friend.interests.split(',').map(interest => interest.trim()): the tags
    shown on a friend's card and profile. *)
Definition interest_tags (interests : string) : list string :=
  trim <$> split comma interests.

(** getDurationHours of the profile page. *)
Definition getDurationHours (duration : string) : Z :=
  if decide (duration = "1 Hour") then 1
  else if decide (duration = "3 Hours") then 3
  else if decide (duration = "Half Day (6 Hours)") then 6
  else if decide (duration = "Full Day (12 Hours)") then 12
  else 1.

(** friend.hourly_rate * getDurationHours(selectedDuration), a product of
    two numbers.  For integers whose product is at most 2^53 in absolute
    value the product of the doubles is the exact product; beyond that the
    double is rounded, and the figure is left out here ([None]). *)
Definition totalCost (hourly_rate : Z) (selectedDuration : string) : option Z :=
  let product := hourly_rate * getDurationHours selectedDuration in
  if decide (Z.abs product ≤ 2 ^ 53) then Some product else None.

(** The [created_at] text of a message in the widget: the store's datetime
    when the message came with the history, an ISO text when it came in a
    push or is the widget's own echo. *)
Inductive time_text := sqlite_datetime (seconds : Z) | iso_datetime (ms : Z).

(** interface Message *)
Record Message := {
  v_id : option Z;
  v_sender_id : Z;
  v_receiver_id : Z;
  v_content : option string;
  v_created_at : time_text
}.

(** The state of a ChatWidget: its two props, its two state variables, and
    [ws.current], null or a WebSocket in some ready state. *)
Record ChatWidget := {
  w_friend : Z;
  currentUserId : Z;
  w_messages : list Message;
  input : string;
  ws_current : option ready_state
}.

(** What a call of sendMessage did: the widget afterwards, the frame that
    went out on the wire if one did, and whether the call ended in the
    InvalidStateError that send raises on a socket still connecting. *)
Record send_outcome := {
  after : ChatWidget;
  transmitted : option frame;
  InvalidStateError : bool
}.

(** sendMessage.  A browser socket transmits only when OPEN; when CLOSING or
    CLOSED, send discards the data without an error. *)
Definition sendMessage (now : Z) (w : ChatWidget) : send_outcome :=
  if bool_decide (trim (input w) = "") then
    {| after := w; transmitted := None; InvalidStateError := false |}
  else
    match ws_current w with
    | None => {| after := w; transmitted := None; InvalidStateError := false |}
    | Some CONNECTING =>
      {| after := w; transmitted := None; InvalidStateError := true |}
    | Some st =>
      {| after :=
           {| w_friend := w_friend w; currentUserId := currentUserId w;
              w_messages :=
                w_messages w ++
                [{| v_id := None; v_sender_id := currentUserId w;
                    v_receiver_id := w_friend w; v_content := Some (input w);
                    v_created_at := iso_datetime (toISOString now) |}];
              input := ""; ws_current := ws_current w |};
         transmitted :=
           if bool_decide (st = OPEN)
           then Some (chat (currentUserId w) (w_friend w) (Some (input w)))
           else None;
         InvalidStateError := false |}
    end.

(** ws.current.onmessage, on a frame pushed by the server. *)
Definition onmessage (w : ChatWidget) (data : payload) : ChatWidget :=
  if bool_decide (type data = "chat" ∧ senderId data = w_friend w) then
    {| w_friend := w_friend w; currentUserId := currentUserId w;
       w_messages :=
         w_messages w ++
         [{| v_id := None; v_sender_id := senderId data;
             v_receiver_id := currentUserId w; v_content := content data;
             v_created_at := iso_datetime (createdAt data) |}];
       input := input w; ws_current := ws_current w |}
  else w.

(** * Properties *)

(** ** The sorter *)

Section sorter.
Implicit Types (m x : message) (l : list message).

Lemma place_Permutation m l : place m l ≡ₚ m :: l.
Proof.
  induction l as [|x l IH]; simpl; [done|].
  destruct (created_at m <=? created_at x); [done|].
  rewrite IH. apply Permutation_swap.
Qed.

Lemma order_by_created_at_Permutation l : order_by_created_at l ≡ₚ l.
Proof.
  induction l as [|x l IH]; simpl; [done|].
  by rewrite place_Permutation, IH.
Qed.

Lemma place_HdRel y m l :
  not_later y m → HdRel not_later y l → HdRel not_later y (place m l).
Proof.
  intros Hym Hl. destruct l as [|x l]; simpl; [by constructor|].
  destruct (created_at m <=? created_at x); constructor; [done|].
  by inversion Hl.
Qed.

Lemma place_Sorted m l : Sorted not_later l → Sorted not_later (place m l).
Proof.
  induction 1 as [|x l Hl IH Hhd]; simpl; [by repeat constructor|].
  destruct (created_at m <=? created_at x) eqn:Hle.
  - apply Z.leb_le in Hle. by repeat constructor.
  - apply Z.leb_gt in Hle. constructor; [done|].
    apply place_HdRel; [unfold not_later; lia | done].
Qed.

Lemma order_by_created_at_Sorted l : Sorted not_later (order_by_created_at l).
Proof.
  induction l as [|x l IH]; simpl; [constructor|]. by apply place_Sorted.
Qed.

(** Rows that already come in ascending order leave the sorter as they
    entered it, ties included. *)
Lemma order_by_created_at_id l : Sorted not_later l → order_by_created_at l = l.
Proof.
  induction 1 as [|x l Hl IH Hhd]; simpl; [done|].
  rewrite IH. destruct Hhd as [|y l Hxy]; simpl; [done|].
  unfold not_later in Hxy. by rewrite (proj2 (Z.leb_le _ _) Hxy).
Qed.
End sorter.

(** ** The initial state *)

Lemma seed_empty_db : seed empty_db = inr initial_db.
Proof. reflexivity. Qed.

Lemma initial_db_users :
  (λ u, (u_id u, name u, u_role u)) <$> rows (users initial_db)
  = [(1, "Aarav", friend); (2, "Ishani", friend); (3, "Rohan", friend);
     (4, "Priya", friend)].
Proof. reflexivity. Qed.

(** Seeding leaves a database that already has users as it is. *)
Lemma seed_initial_db : seed initial_db = inr initial_db.
Proof. reflexivity. Qed.

(** The sample server is what two connections and one auth frame leave. *)
Lemma bound_to_first_reached :
  run initial_server
    [connected; connected; received 0 {| at_insert := 0; at_push := 0 |} (auth (Some 1))]
  = Returned bound_to_first [].
Proof. reflexivity. Qed.

(** ** The tables *)


Lemma rowids_bounded_append {R : Type} (key : R → Z) (t : table R) (mk : Z → R) :
  (∀ id, key (mk id) = id) →
  rowids_bounded key t → rowids_bounded key (append_row t mk).
Proof.
  intros Hkey Ht. unfold rowids_bounded, append_row; simpl.
  apply Forall_app; split.
  - eapply Forall_impl; [exact Ht|]. simpl. intros; lia.
  - constructor; [|constructor]. rewrite Hkey. lia.
Qed.

Lemma insert_message_rows d now a b c :
  ∃ d', insert_message d now a b (Some c) = inr d'
    ∧ rows (messages d') = rows (messages d) ++
        [{| m_id := last_rowid (messages d) + 1; sender_id := a; receiver_id := b;
            m_content := c; created_at := CURRENT_TIMESTAMP now |}]
    ∧ last_rowid (messages d') = last_rowid (messages d) + 1
    ∧ users d' = users d ∧ bookings d' = bookings d.
Proof. eexists; repeat split. Qed.

Lemma select_messages_append d d' a b m :
  rows (messages d') = rows (messages d) ++ [m] →
  exchanged a b m →
  select_messages d' a b ≡ₚ m :: select_messages d a b.
Proof.
  intros Hrows Hm. unfold select_messages.
  rewrite !order_by_created_at_Permutation, Hrows, filter_app, filter_cons_True by done.
  rewrite filter_nil. by rewrite Permutation_app_comm.
Qed.

Lemma exchanged_sym a b m : exchanged a b m ↔ exchanged b a m.
Proof. unfold exchanged. tauto. Qed.

Lemma select_messages_sym d a b : select_messages d a b = select_messages d b a.
Proof.
  unfold select_messages. f_equal. apply list_filter_iff. intros m. apply exchanged_sym.
Qed.

(** ** The relay *)

Lemma is_open_true s ws :
  is_open s ws = true ↔ ∃ k, sockets s !! ws = Some k ∧ readyState k = OPEN.
Proof.
  unfold is_open. destruct (sockets s !! ws) as [k|].
  - rewrite bool_decide_eq_true. split.
    + intros Hk. by exists k.
    + by intros (k' & [= <-] & Hk).
  - split; [done|]. by intros (k & ? & _).
Qed.

(** The frames the chat branch sends, read off the registry. *)
Lemma on_message_chat s ws k a b c :
  ∃ d sent,
    insert_message (db s) (at_insert k) a b (Some c) = inr d
    ∧ on_message ws k (chat a b (Some c)) s = Returned (with_db s d) sent
    ∧ ∀ to p, (to, p) ∈ sent ↔
        deliverable s b to
        ∧ p = {| type := "chat"; senderId := a; content := Some c;
                 createdAt := toISOString (at_push k) |}.
Proof.
  destruct (insert_message_rows (db s) (at_insert k) a b c) as (d & Hd & _).
  exists d. unfold on_message. rewrite Hd. simpl.
  change (is_open (with_db s d)) with (is_open s).
  unfold deliverable.
  destruct (clients s !! b) as [to|] eqn:Hb.
  - destruct (is_open s to) eqn:Ho.
    + eexists; split; [done|split; [done|]]. intros to' p.
      rewrite list_elem_of_singleton. apply is_open_true in Ho. split.
      * by intros [= -> ->].
      * by intros [[[= ->] _] ->].
    + eexists; split; [done|split; [done|]]. intros to' p. split.
      * by intros ?%elem_of_nil.
      * intros [[[= <-] Hk] _]. apply is_open_true in Hk. congruence.
  - eexists; split; [done|split; [done|]]. intros to' p. split.
    + by intros ?%elem_of_nil.
    + by intros [[? _] _].
Qed.

Lemma on_message_chat_sent_length s ws k a b c s' sent :
  on_message ws k (chat a b c) s = Returned s' sent → (length sent ≤ 1)%nat.
Proof.
  unfold on_message. destruct (insert_message _ _ _ _ _); [done|].
  destruct (_ !! b); [destruct (is_open _ _)|]; intros [= _ <-]; simpl; lia.
Qed.

(** C1: handling a chat frame with text content stores exactly one new
    message row for the pair, whatever the registry and the sockets look like:
    the history route, asked for the pair in either order, returns the rows it
    returned before and the new row, once. *)
Theorem chat_persists_one_message (s : server) (ws : nat) (k : clock)
    (senderId receiverId : Z) (content : string) :
  let row := {| m_id := last_rowid (messages (db s)) + 1;
                sender_id := senderId; receiver_id := receiverId;
                m_content := content;
                created_at := CURRENT_TIMESTAMP (at_insert k) |} in
  ∃ s' sent,
    on_message ws k (chat senderId receiverId (Some content)) s = Returned s' sent
    ∧ rows (messages (db s')) = rows (messages (db s)) ++ [row]
    ∧ get_messages (db s') senderId receiverId =
        {| status_code := 200;
           res_body := json_messages (select_messages (db s') senderId receiverId) |}
    ∧ select_messages (db s') senderId receiverId
        ≡ₚ row :: select_messages (db s) senderId receiverId
    ∧ select_messages (db s') receiverId senderId
        ≡ₚ row :: select_messages (db s) receiverId senderId.
Proof.
  intros row.
  destruct (on_message_chat s ws k senderId receiverId content) as (d & sent & Hd & Hrun & _).
  destruct (insert_message_rows (db s) (at_insert k) senderId receiverId content)
    as (d' & Hd' & Hrows & _).
  assert (d' = d) as -> by congruence.
  exists (with_db s d), sent. split; [done|]. split; [done|]. split; [done|].
  split; apply select_messages_append; try done.
  - left. done.
  - right. done.
Qed.

(** C2: handling a chat frame with text content sends the payload
    {type: "chat", senderId, content, createdAt} to a socket exactly when
    that socket is the registry's entry for the receiver and is open; at most
    one frame is sent; when the receiver has no entry or its socket is not
    open nothing is sent to anyone, the handler still returns normally, and
    the message is in the history. *)
Theorem push_iff_receiver_open (s : server) (ws : nat) (k : clock)
    (senderId receiverId : Z) (content : string) :
  ∃ s' sent,
    on_message ws k (chat senderId receiverId (Some content)) s = Returned s' sent
    ∧ (∀ to p, (to, p) ∈ sent ↔
         deliverable s receiverId to
         ∧ p = {| type := "chat"; senderId := senderId; content := Some content;
                  createdAt := toISOString (at_push k) |})
    ∧ (length sent ≤ 1)%nat
    ∧ ((¬ ∃ to, deliverable s receiverId to) → sent = [])
    ∧ {| m_id := last_rowid (messages (db s)) + 1;
         sender_id := senderId; receiver_id := receiverId; m_content := content;
         created_at := CURRENT_TIMESTAMP (at_insert k) |}
        ∈ select_messages (db s') senderId receiverId
    ∧ clients s' = clients s ∧ sockets s' = sockets s.
Proof.
  destruct (on_message_chat s ws k senderId receiverId content) as (d & sent & Hd & Hrun & Hsent).
  exists (with_db s d), sent. split; [done|]. split; [done|].
  split; [by eapply on_message_chat_sent_length|].
  split.
  { intros Hno. destruct sent as [|[to p] sent]; [done|]. exfalso. apply Hno.
    exists to. apply (Hsent to p). left. }
  split; [|done].
  destruct (insert_message_rows (db s) (at_insert k) senderId receiverId content)
    as (d' & Hd' & Hrows & _).
  assert (d' = d) as -> by congruence.
  eapply elem_of_Permutation_proper.
  - apply (select_messages_append (db s) d senderId receiverId _ Hrows).
    by left.
  - left.
Qed.

(** C5: the history route gives the same response for (A, B) and for
    (B, A).  The list in its body holds exactly the stored messages that one
    of the two sent to the other, each as often as it is stored and no other
    row, in ascending order of creation time. *)
Theorem history_symmetric (d : database) (A B : Z) :
  ∃ l,
    get_messages d A B = {| status_code := 200; res_body := json_messages l |}
    ∧ get_messages d B A = {| status_code := 200; res_body := json_messages l |}
    ∧ get_messages d A B = get_messages d B A
    ∧ l ≡ₚ filter (λ m, (sender_id m = A ∧ receiver_id m = B)
                        ∨ (sender_id m = B ∧ receiver_id m = A))
             (rows (messages d))
    ∧ Sorted not_later l
    ∧ ∀ m, m ∈ l ↔
        m ∈ rows (messages d)
        ∧ ((sender_id m = A ∧ receiver_id m = B) ∨ (sender_id m = B ∧ receiver_id m = A)).
Proof.
  exists (select_messages d A B). unfold get_messages.
  rewrite <- (select_messages_sym d A B).
  split; [done|]. split; [done|]. split; [done|].
  unfold select_messages. split; [|split].
  - rewrite order_by_created_at_Permutation.
    erewrite list_filter_iff; [done|]. intros m. unfold exchanged. tauto.
  - apply order_by_created_at_Sorted.
  - intros m. rewrite order_by_created_at_Permutation, list_elem_of_filter.
    unfold exchanged. tauto.
Qed.

(** C6: when the INSERT of a chat frame fails, the handler ends in that
    error with the server state as it was and nothing sent; when the INSERT
    succeeds, the handler returns normally whatever the registry holds for the
    receiver. *)
Theorem insert_failure_aborts_relay (s : server) (ws : nat) (k : clock)
    (senderId receiverId : Z) (content : option string) :
  (∀ e, insert_message (db s) (at_insert k) senderId receiverId content = inl e →
     on_message ws k (chat senderId receiverId content) s = Threw e s [])
  ∧ (∀ d, insert_message (db s) (at_insert k) senderId receiverId content = inr d →
     ∃ sent, on_message ws k (chat senderId receiverId content) s
             = Returned (with_db s d) sent).
Proof.
  split.
  - intros e He. unfold on_message. by rewrite He.
  - intros d Hd. unfold on_message. rewrite Hd. simpl.
    destruct (clients s !! receiverId); [destruct (is_open _ _)|]; by eexists.
Qed.

Lemma insert_failure_aborts_relay_witness :
  on_message 1 {| at_insert := 0; at_push := 0 |} (chat 2 1 None) bound_to_first
    = Threw (SQLITE_CONSTRAINT_NOTNULL "messages.content") bound_to_first []
  ∧ ∃ d sent, on_message 1 {| at_insert := 0; at_push := 0 |} (chat 2 1 (Some "hi"))
                bound_to_first = Returned (with_db bound_to_first d) sent.
Proof.
  split.
  - apply (insert_failure_aborts_relay bound_to_first 1 _ 2 1 None). reflexivity.
  - eexists.
    apply (insert_failure_aborts_relay bound_to_first 1 _ 2 1 (Some "hi")). reflexivity.
Defined.

(** ** Order of the history *)

Lemma step_messages s ev s' sent :
  step s ev = Returned s' sent →
  rows (messages (db s')) = rows (messages (db s)) ++ chat_rows (last_rowid (messages (db s))) [ev]
  ∧ ∀ evs, chat_rows (last_rowid (messages (db s))) (ev :: evs)
           = chat_rows (last_rowid (messages (db s))) [ev]
             ++ chat_rows (last_rowid (messages (db s'))) evs.
Proof.
  unfold step, on_connection, on_close, on_message.
  destruct ev as [|ws k [v|a b [c|]|]|ws|ws]; simpl;
    repeat case_match; try discriminate;
    intros [= <- _]; simpl; rewrite ?app_nil_r; done.
Qed.

(** A run that returns has stored the rows of its chat frames, after the
    rows that were there, in the order in which it handled the frames. *)
Lemma run_messages evs : ∀ s s' sent,
  run s evs = Returned s' sent →
  rows (messages (db s'))
  = rows (messages (db s)) ++ chat_rows (last_rowid (messages (db s))) evs.
Proof.
  induction evs as [|ev evs IH]; intros s s' sent; simpl run.
  - intros [= <- _]. simpl. by rewrite app_nil_r.
  - destruct (step s ev) as [s1 sent1|] eqn:Hstep; [|done].
    destruct (run s1 evs) as [s2 sent2|] eqn:Hrun; [|done].
    intros [= <- _].
    destruct (step_messages _ _ _ _ Hstep) as [Hrows Hsplit].
    rewrite (IH _ _ _ Hrun), (Hsplit evs), Hrows. by rewrite app_assoc.
Qed.

(** C3, as the code has it: the history is in non-decreasing order of
    creation time after any run; and when the creation times that the store
    gave to the pair's messages do not decrease along the order in which the
    frames were handled, the history lists the pair's messages in exactly that
    order (messages of one and the same second included). *)
Theorem history_in_processing_order (s : server) (evs : list event)
    (s' : server) (sent : list (nat * payload)) (A B : Z) :
  run s evs = Returned s' sent →
  Sorted not_later (select_messages (db s') A B)
  ∧ (Sorted not_later
       (filter (exchanged A B)
          (rows (messages (db s)) ++ chat_rows (last_rowid (messages (db s))) evs)) →
     select_messages (db s') A B
     = filter (exchanged A B)
         (rows (messages (db s)) ++ chat_rows (last_rowid (messages (db s))) evs)).
Proof.
  intros Hrun. split.
  - apply order_by_created_at_Sorted.
  - intros Hsorted. unfold select_messages.
    rewrite (run_messages _ _ _ _ Hrun). by apply order_by_created_at_id.
Qed.

Lemma history_in_processing_order_witness :
  let evs := [connected; connected;
              received 0 {| at_insert := 1200; at_push := 1201 |} (chat 1 2 (Some "a"));
              received 1 {| at_insert := 1900; at_push := 1901 |} (chat 2 1 (Some "b"));
              received 0 {| at_insert := 2300; at_push := 2301 |} (chat 1 2 (Some "c"))] in
  ∃ s' sent,
    run initial_server evs = Returned s' sent
    ∧ m_content <$> select_messages (db s') 1 2 = ["a"; "b"; "c"].
Proof.
  intros evs.
  destruct (run initial_server evs) as [s' sent|] eqn:Hrun; [|discriminate Hrun].
  exists s', sent. split; [reflexivity|].
  destruct (history_in_processing_order initial_server evs s' sent 1 2 Hrun) as [_ Hsame].
  rewrite Hsame.
  - reflexivity.
  - vm_compute. repeat constructor; discriminate.
Defined.

(** C3 as stated fails: two chat frames of one pair, handled while the
    wall clock was set back in between, come out of the history in the
    opposite order. *)
Lemma history_out_of_processing_order :
  let evs := [connected;
              received 0 {| at_insert := 10000; at_push := 10000 |} (chat 1 2 (Some "first"));
              received 0 {| at_insert := 5000; at_push := 5000 |} (chat 1 2 (Some "second"))] in
  ∃ s' sent,
    run initial_server evs = Returned s' sent
    ∧ m_content <$> chat_rows 0 evs = ["first"; "second"]
    ∧ m_content <$> select_messages (db s') 1 2 = ["second"; "first"]
    ∧ select_messages (db s') 1 2 ≠ filter (exchanged 1 2) (chat_rows 0 evs).
Proof.
  intros evs. eexists _, _. split; [reflexivity|]. split; [reflexivity|].
  split; [reflexivity|]. vm_compute. discriminate.
Qed.

(** ** The registry *)

Lemma truthy_nonzero u : u ≠ 0 → truthy (Some u) = true.
Proof. intros Hu. simpl. by destruct (Z.eqb_spec u 0). Qed.

Lemma on_message_auth s ws k u :
  u ≠ 0 →
  on_message ws k (auth (Some u)) s
  = Returned
      (with_clients (with_sockets s (alter (set_userId (Some u)) ws (sockets s)))
         (<[u := ws]> (clients s))) [].
Proof. intros Hu. unfold on_message. by rewrite (truthy_nonzero u Hu). Qed.

Lemma closed_step_bound s ws sk u :
  sockets s !! ws = Some sk → userId sk = Some u → u ≠ 0 →
  step s (closed ws)
  = Returned
      (with_clients (with_sockets s (alter (set_readyState CLOSED) ws (sockets s)))
         (delete u (clients s))) [].
Proof.
  intros Hsk Hid Hu. unfold step, on_close. simpl.
  rewrite lookup_alter_eq, Hsk. simpl. rewrite Hid.
  by rewrite (truthy_nonzero u Hu).
Qed.

(** C4: the registry holds at most one socket per user identity, and an
    auth frame with a user id that counts as true binds that id to the socket
    the frame came in on, in place of whatever was bound before: looking the
    id up gives the new socket and no other one, and the other ids keep
    their bindings. *)
Theorem auth_replaces_binding (s : server) (ws : nat) (k : clock) (u : Z) :
  u ≠ 0 →
  ∃ s',
    on_message ws k (auth (Some u)) s = Returned s' []
    ∧ clients s' !! u = Some ws
    ∧ (∀ old, old ≠ ws → clients s' !! u ≠ Some old)
    ∧ (∀ v, v ≠ u → clients s' !! v = clients s !! v)
    ∧ (∀ (s0 : server) v h1 h2,
         clients s0 !! v = Some h1 → clients s0 !! v = Some h2 → h1 = h2).
Proof.
  intros Hu. rewrite (on_message_auth s ws k u Hu).
  eexists. split; [done|]. simpl. split; [apply lookup_insert_eq|].
  split; [|split].
  - intros old Hold. rewrite lookup_insert_eq. congruence.
  - intros v Hv. by rewrite lookup_insert_ne.
  - intros s0 v h1 h2 H1 H2. congruence.
Qed.

Lemma auth_replaces_binding_witness :
  clients bound_to_first !! 1 = Some 0%nat
  ∧ ∃ s',
      on_message 1 {| at_insert := 0; at_push := 0 |} (auth (Some 1)) bound_to_first
        = Returned s' []
      ∧ clients s' !! 1 = Some 1%nat
      ∧ clients s' !! 1 ≠ Some 0%nat.
Proof.
  split; [reflexivity|].
  destruct (auth_replaces_binding bound_to_first 1 {| at_insert := 0; at_push := 0 |} 1)
    as (s' & Hrun & Hnew & Hold & _); [lia|].
  exists s'. split; [exact Hrun|]. split; [exact Hnew|]. apply Hold. lia.
Defined.

(** C9: a user authenticates on socket c1 and then on socket c2; when c1
    closes afterwards, its close handler deletes the user's entry, although
    the entry named c2 and c2 is still open. *)
Theorem close_of_replaced_socket_unbinds (s : server) (c1 c2 : nat)
    (k1 k2 : clock) (u : Z) (sk1 sk2 : socket) :
  c1 ≠ c2 → u ≠ 0 →
  sockets s !! c1 = Some sk1 →
  sockets s !! c2 = Some sk2 → readyState sk2 = OPEN →
  ∃ s2 s3,
    run s [received c1 k1 (auth (Some u)); received c2 k2 (auth (Some u))]
      = Returned s2 []
    ∧ clients s2 !! u = Some c2
    ∧ run s [received c1 k1 (auth (Some u)); received c2 k2 (auth (Some u)); closed c1]
      = Returned s3 []
    ∧ clients s3 !! u = None
    ∧ is_open s3 c2 = true.
Proof.
  intros Hc Hu H1 H2 Hopen.
  unfold run, step at 1 2 3 4.
  rewrite !(on_message_auth _ _ _ u Hu).
  rewrite (closed_step_bound _ c1 (set_userId (Some u) sk1) u); [|simpl|done|done].
  - eexists _, _. split; [done|]. simpl. split; [apply lookup_insert_eq|].
    split; [done|]. simpl. split; [apply lookup_delete_eq|].
    unfold is_open. simpl.
    rewrite lookup_alter_ne, lookup_alter_eq, lookup_alter_ne, H2 by done.
    simpl. by rewrite bool_decide_eq_true.
  - by rewrite lookup_alter_ne, lookup_alter_eq, H1.
Qed.

Lemma close_of_replaced_socket_unbinds_witness :
  ∃ s3,
    run bound_to_first
      [received 0 {| at_insert := 0; at_push := 0 |} (auth (Some 1));
       received 1 {| at_insert := 0; at_push := 0 |} (auth (Some 1));
       closed 0] = Returned s3 []
    ∧ clients s3 !! 1 = None
    ∧ is_open s3 1 = true.
Proof.
  destruct (close_of_replaced_socket_unbinds bound_to_first 0 1
              {| at_insert := 0; at_push := 0 |} {| at_insert := 0; at_push := 0 |} 1
              {| userId := Some 1; readyState := OPEN |}
              {| userId := None; readyState := OPEN |})
    as (s2 & s3 & _ & _ & Hrun & Hgone & Hopen);
    [lia | lia | reflexivity | reflexivity | reflexivity |].
  exists s3. split; [exact Hrun|]. split; [exact Hgone | exact Hopen].
Defined.

(** C10: the createdAt of a pushed payload is the clock reading taken when
    the payload is built, while the created_at of the stored row is the
    store's own reading, taken at the INSERT and cut to whole seconds; there
    is an execution, with an online receiver, in which the pushed createdAt
    is not the instant the stored created_at denotes. *)
Theorem pushed_createdAt_is_fresh :
  (∀ s ws k a b c s' sent to p,
     on_message ws k (chat a b c) s = Returned s' sent →
     (to, p) ∈ sent →
     createdAt p = toISOString (at_push k)
     ∧ ∃ row, last (rows (messages (db s'))) = Some row
              ∧ created_at row = CURRENT_TIMESTAMP (at_insert k))
  ∧ ∃ ws k a b c s' to p row,
      on_message ws k (chat a b (Some c)) bound_to_first = Returned s' [(to, p)]
      ∧ last (rows (messages (db s'))) = Some row
      ∧ createdAt p ≠ datetime_ms (created_at row).
Proof.
  split.
  - intros s ws k a b [c|] s' sent to p; [|done].
    destruct (on_message_chat s ws k a b c) as (d & sent' & Hd & Hrun & Hsent).
    rewrite Hrun. intros [= <- <-] Hin. apply Hsent in Hin as [_ ->].
    split; [done|].
    destruct (insert_message_rows (db s) (at_insert k) a b c) as (d' & Hd' & Hrows & _).
    assert (d' = d) as -> by congruence.
    eexists. simpl. rewrite Hrows, last_snoc. done.
  - exists 1%nat, {| at_insert := 1999; at_push := 2001 |}, 2, 1, "hi".
    eexists _, _, _, _. split; [reflexivity|]. split; [reflexivity|].
    vm_compute. discriminate.
Qed.

(** ** The REST routes *)

Section primary_key.
Context {R : Type} (key : R → Z).

(** Rows of a table with a primary key are told apart by the key. *)
Lemma key_unique (l : list R) (x y : R) :
  NoDup (key <$> l) → x ∈ l → y ∈ l → key x = key y → x = y.
Proof.
  induction l as [|z l IH]; [by intros _ ?%elem_of_nil|].
  rewrite fmap_cons, NoDup_cons. intros [Hz Hl].
  intros [->|Hx]%elem_of_cons [->|Hy]%elem_of_cons Hkey; [done| | |by apply IH].
  - exfalso. apply Hz. rewrite Hkey. by apply list_elem_of_fmap_2.
  - exfalso. apply Hz. rewrite <- Hkey. by apply list_elem_of_fmap_2.
Qed.

Lemma head_filter_key (P : R → Prop) `{!∀ r, Decision (P r)} (l : list R) (x : R) :
  NoDup (key <$> l) → (∀ r, P r → key r = key x) → x ∈ l → P x →
  head (filter P l) = Some x.
Proof.
  intros Hl HP Hx HPx.
  destruct (filter P l) as [|y l'] eqn:Hf.
  - exfalso. by eapply (filter_nil_not_elem_of P l x).
  - simpl. f_equal.
    assert (y ∈ filter P l) as [HPy Hy]%list_elem_of_filter by (rewrite Hf; left).
    eapply key_unique; eauto.
Qed.
End primary_key.

Lemma filter_none {R : Type} (P : R → Prop) `{!∀ r, Decision (P r)} (l : list R) :
  (∀ r, r ∈ l → ¬ P r) → filter P l = [].
Proof.
  induction l as [|x l IH]; [done|]. intros Hl.
  rewrite filter_cons_False by (apply Hl; left).
  apply IH. intros r Hr. apply Hl. by right.
Qed.

(** C7: with ids being the primary key of the users table, the profile
    route answers 200 with the user's row when a user with that id exists and
    has the friend role, and answers 404 with an error object when the user
    with that id has another role or when no user has that id. *)
Theorem friend_profile_or_not_found (d : database) (id : Z) :
  NoDup (u_id <$> rows (users d)) →
  (∀ u, u ∈ rows (users d) → u_id u = id →
     (u_role u = friend →
      get_friend d id = {| status_code := 200; res_body := json_user u |})
     ∧ (u_role u ≠ friend →
        get_friend d id
        = {| status_code := 404; res_body := json_error "Friend not found" |}))
  ∧ ((∀ u, u ∈ rows (users d) → u_id u ≠ id) →
     get_friend d id
     = {| status_code := 404; res_body := json_error "Friend not found" |}).
Proof.
  intros Hpk. unfold get_friend. split; [intros u Hu Hid; split|].
  - intros Hrole.
    rewrite (head_filter_key u_id (is_friend_with_id id) _ u); try done.
    intros r [Hr _]. congruence.
  - intros Hrole. rewrite filter_none; [done|].
    intros r Hr [Hrid Hrrole]. apply Hrole.
    rewrite (key_unique u_id _ u r Hpk Hu Hr); [done | congruence].
  - intros Hnone. rewrite filter_none; [done|].
    intros r Hr [Hrid _]. by apply (Hnone r).
Qed.

Lemma friend_profile_or_not_found_witness :
  (∃ u, name u = "Aarav"
        ∧ get_friend initial_db 1 = {| status_code := 200; res_body := json_user u |})
  ∧ get_friend initial_db 999
    = {| status_code := 404; res_body := json_error "Friend not found" |}.
Proof.
  assert (NoDup (u_id <$> rows (users initial_db))) as Hpk.
  { vm_compute. repeat (constructor; [rewrite ?elem_of_cons, elem_of_nil; intuition discriminate|]).
    constructor. }
  split.
  - eexists. split; [|apply (friend_profile_or_not_found initial_db 1 Hpk)].
    + shelve.
    + vm_compute. left.
    + reflexivity.
    + reflexivity.
    Unshelve. reflexivity.
  - apply (friend_profile_or_not_found initial_db 999 Hpk).
    apply Forall_forall. vm_compute. repeat constructor; discriminate.
Defined.



(** The route keeps the bookings table's rowids under its counter. *)
Lemma post_bookings_rowids_bounded d now c f act dur :
  rowids_bounded b_id (bookings d) →
  rowids_bounded b_id (bookings (post_bookings d now c f act dur).1).
Proof.
  intros Hd. unfold post_bookings, insert_booking.
  destruct (references_user d c && references_user d f); simpl; [|done].
  by apply rowids_bounded_append.
Qed.





(** * Further properties of the server *)

(** ** Seeding *)

(** X1: seeding never fails.  On a users table with rows it changes
    nothing; on an empty users table it inserts the four friend profiles
    under the next four rowids; it never touches bookings or messages, and
    seeding again afterwards changes nothing (a restart does not duplicate
    the profiles). *)
Theorem seed_once (d : database) :
  ∃ d',
    seed d = inr d'
    ∧ bookings d' = bookings d ∧ messages d' = messages d
    ∧ (rows (users d) ≠ [] → d' = d)
    ∧ (rows (users d) = [] →
       name <$> rows (users d') = ["Aarav"; "Ishani"; "Rohan"; "Priya"]
       ∧ u_id <$> rows (users d')
         = [last_rowid (users d) + 1; last_rowid (users d) + 2;
            last_rowid (users d) + 3; last_rowid (users d) + 4]
       ∧ Forall is_friend (rows (users d')))
    ∧ seed d' = inr d'.
Proof.
  destruct d as [[ur ul] bk ms fk]. destruct ur as [|u ur].
  - eexists. split; [reflexivity|]. simpl.
    split; [done|]. split; [done|]. split; [done|].
    split; [|done]. intros _.
    split; [done|]. split.
    + rewrite <- !Z.add_assoc. done.
    + repeat constructor.
  - exists {| users := {| rows := u :: ur; last_rowid := ul |}; bookings := bk;
             messages := ms; foreign_keys := fk |}.
    split; [reflexivity|]. split; [done|]. split; [done|]. split; [done|].
    split; [done|]. reflexivity.
Qed.

(** ** Keys of the tables *)

Section table_keys.
Context {R : Type} (key : R → Z).

Lemma table_ok_empty : table_ok key empty_table.
Proof. repeat split; simpl; [lia | constructor | constructor]. Qed.

Lemma table_ok_append (t : table R) (mk : Z → R) :
  (∀ id, key (mk id) = id) → table_ok key t → table_ok key (append_row t mk).
Proof.
  intros Hmk (Hlast & Hsorted & Hrows). unfold table_ok, append_row; simpl.
  split; [lia|]. split.
  - rewrite fmap_app. apply StronglySorted_app_2; [|done|repeat constructor].
    intros x1 x2 (r & -> & Hr)%list_elem_of_fmap Hx2.
    apply list_elem_of_singleton in Hx2 as ->. rewrite Hmk.
    eapply Forall_forall in Hrows; [|exact Hr]. simpl in Hrows. lia.
  - apply Forall_app; split.
    + eapply Forall_impl; [exact Hrows|]. simpl. intros; lia.
    + constructor; [|constructor]. rewrite Hmk. lia.
Qed.

Lemma table_ok_rowids_bounded (t : table R) : table_ok key t → rowids_bounded key t.
Proof.
  intros (_ & _ & Hrows). eapply Forall_impl; [exact Hrows|]. simpl. intros; lia.
Qed.

Lemma increasing_NoDup (l : list Z) : StronglySorted Z.lt l → NoDup l.
Proof.
  induction 1 as [|x l Hl IH Hx]; constructor; [|done].
  intros Hin. eapply Forall_forall in Hx; [|exact Hin]. lia.
Qed.

Lemma table_ok_NoDup (t : table R) : table_ok key t → NoDup (key <$> rows t).
Proof. intros (_ & Hsorted & _). by apply increasing_NoDup. Qed.
End table_keys.

Lemma insertUser_db_ok d mk d' :
  (∀ id, u_id (mk id) = id) → db_ok d → insertUser d mk = inr d' → db_ok d'.
Proof.
  intros Hmk (Hu & Hb & Hm & He). unfold insertUser.
  case_bool_decide as Hfresh; [done|]. intros [= <-].
  unfold db_ok; simpl. split_and!; [by apply table_ok_append|done|done|].
  rewrite fmap_app. apply NoDup_app. split; [done|]. split.
  - intros e He' ->%list_elem_of_singleton. done.
  - apply NoDup_singleton.
Qed.

Lemma insert_message_db_ok d now a b c d' :
  db_ok d → insert_message d now a b c = inr d' → db_ok d'.
Proof.
  intros (Hu & Hb & Hm & He). destruct c as [c|]; [|done]. intros [= <-].
  unfold db_ok; simpl. split_and!; [done|done|by apply table_ok_append|done].
Qed.

Lemma post_bookings_db_ok d now c f act dur :
  db_ok d → db_ok (post_bookings d now c f act dur).1.
Proof.
  intros (Hu & Hb & Hm & He). unfold post_bookings, insert_booking.
  destruct (references_user d c && references_user d f); simpl; [|done].
  unfold db_ok; simpl. split_and!; [done|by apply table_ok_append|done|done].
Qed.

(** ** What a run does to the database *)

Lemma state_of_run_cons s ev evs :
  state_of (run s (ev :: evs))
  = match step s ev with
    | Returned s1 _ => state_of (run s1 evs)
    | Threw _ s1 _ => s1
    end.
Proof.
  simpl. destruct (step s ev) as [s1 sent1|]; [|done]. by destruct (run s1 evs).
Qed.

Lemma frames_of_run_cons s ev evs :
  frames_of (run s (ev :: evs))
  = match step s ev with
    | Returned s1 sent1 => sent1 ++ frames_of (run s1 evs)
    | Threw _ _ sent1 => sent1
    end.
Proof.
  simpl. destruct (step s ev) as [s1 sent1|]; [|done]. by destruct (run s1 evs).
Qed.

(** A handler leaves the database alone or has run one INSERT INTO
    messages on it. *)
Lemma step_db s ev :
  db (state_of (step s ev)) = db s
  ∨ ∃ k a b c ws,
      ev = received ws k (chat a b (Some c))
      ∧ insert_message (db s) (at_insert k) a b (Some c) = inr (db (state_of (step s ev))).
Proof.
  destruct ev as [|ws k [v|a b [c|]|]|ws|ws].
  - by left.
  - left. unfold step, on_message. by repeat case_match.
  - right. exists k, a, b, c, ws. split; [done|].
    unfold step, on_message. simpl. by repeat case_match.
  - by left.
  - by left.
  - by left.
  - left. unfold step, on_close. simpl. by repeat case_match.
Qed.

Lemma run_db_ind (P : database → Prop) :
  (∀ d now a b c d', P d → insert_message d now a b (Some c) = inr d' → P d') →
  ∀ evs s, P (db s) → P (db (state_of (run s evs))).
Proof.
  intros Hins. induction evs as [|ev evs IH]; intros s Hs; [done|].
  rewrite state_of_run_cons.
  assert (P (db (state_of (step s ev)))) as Hstep.
  { destruct (step_db s ev) as [->|(k & a & b & c & ws & _ & Hd)]; [done|].
    by eapply Hins. }
  destruct (step s ev) as [s1 sent1|e s1 sent1]; simpl in Hstep; [by apply IH|done].
Qed.

Lemma seed_db_ok d d' : db_ok d → seed d = inr d' → db_ok d'.
Proof.
  intros Hd. unfold seed. case_bool_decide; [|by intros [= <-]].
  unfold and_then. intros Hrun.
  repeat match type of Hrun with
  | match insertUser ?d0 ?mk with _ => _ end = _ =>
    let H := fresh "H" in
    destruct (insertUser d0 mk) as [|?d] eqn:H; [done|];
    apply insertUser_db_ok in H; [|done|done]
  end.
  by eapply insertUser_db_ok in Hrun.
Qed.

Lemma initial_db_ok : db_ok initial_db.
Proof.
  apply (seed_db_ok empty_db); [|reflexivity].
  unfold db_ok; simpl. split_and!; try apply table_ok_empty. constructor.
Qed.

(** X2: in every table the rowids are positive, strictly increasing along
    the rows and at most the counter, and no two users share an email
    address.  The seeded database is like that, and seeding, every run of
    WebSocket events (also one that ends in an exception) and every booking
    request keep it like that. *)
Theorem tables_keep_their_keys :
  db_ok initial_db
  ∧ (∀ d d', db_ok d → seed d = inr d' → db_ok d')
  ∧ (∀ s evs, db_ok (db s) → db_ok (db (state_of (run s evs))))
  ∧ (∀ d now c f act dur, db_ok d → db_ok (post_bookings d now c f act dur).1).
Proof.
  split; [apply initial_db_ok|]. split; [apply seed_db_ok|]. split.
  - intros s evs. apply run_db_ind. intros d now a b c d'. apply insert_message_db_ok.
  - apply post_bookings_db_ok.
Qed.

Lemma tables_keep_their_keys_witness :
  NoDup (u_id <$> rows (users initial_db))
  ∧ rowids_bounded b_id
      (bookings (post_bookings initial_db 0 1 2 "Movie Partner" "1 Hour").1).
Proof.
  destruct tables_keep_their_keys as (Hinit & _ & _ & Hpost).
  split.
  - apply table_ok_NoDup, Hinit.
  - apply table_ok_rowids_bounded, (Hpost initial_db 0 1 2 "Movie Partner" "1 Hour" Hinit).
Defined.

(** X3: no WebSocket event changes the users or the bookings table,
    whatever the run and however it ends; and a run that handles no chat
    frame leaves the whole database as it is. *)
Theorem run_keeps_users_and_bookings (s : server) (evs : list event) :
  users (db (state_of (run s evs))) = users (db s)
  ∧ bookings (db (state_of (run s evs))) = bookings (db s)
  ∧ foreign_keys (db (state_of (run s evs))) = foreign_keys (db s)
  ∧ ((∀ ws k a b c, received ws k (chat a b c) ∉ evs) →
     db (state_of (run s evs)) = db s).
Proof.
  split; [|split; [|split]].
  - apply (run_db_ind (λ d, users d = users (db s))); [|done].
    intros d now a b c d' Hd [= <-]. done.
  - apply (run_db_ind (λ d, bookings d = bookings (db s))); [|done].
    intros d now a b c d' Hd [= <-]. done.
  - apply (run_db_ind (λ d, foreign_keys d = foreign_keys (db s))); [|done].
    intros d now a b c d' Hd [= <-]. done.
  - revert s. induction evs as [|ev evs IH]; intros s Hno; [done|].
    rewrite state_of_run_cons.
    assert (db (state_of (step s ev)) = db s) as Hstep.
    { destruct (step_db s ev) as [?|(k & a & b & c & ws & -> & _)]; [done|].
      exfalso. eapply Hno. left. }
    destruct (step s ev) as [s1 sent1|e s1 sent1]; simpl in Hstep; [|done].
    rewrite <- Hstep. apply IH. intros ws k a b c Hin. eapply Hno. right. exact Hin.
Qed.

(** ** Pushes *)

(** Whatever a handler sends, it sends to a socket that is open when the
    handler starts. *)
Lemma step_frames_open s ev to p :
  (to, p) ∈ frames_of (step s ev) → is_open s to = true.
Proof.
  destruct ev as [|ws k [v|a b c|]|ws|ws]; simpl.
  - by intros ?%elem_of_nil.
  - repeat case_match; simpl; by intros ?%elem_of_nil.
  - destruct (insert_message _ _ _ _ _) as [e|d]; simpl; [by intros ?%elem_of_nil|].
    change (is_open (with_db s d)) with (is_open s).
    destruct (clients s !! b) as [r|]; [|by intros ?%elem_of_nil].
    destruct (is_open s r) eqn:Hopen; simpl; [|by intros ?%elem_of_nil].
    by intros [= -> _]%list_elem_of_singleton.
  - by intros ?%elem_of_nil.
  - by intros ?%elem_of_nil.
  - unfold on_close. repeat case_match; simpl; by intros ?%elem_of_nil.
Qed.

(** A socket below the allocation counter that is not open stays so. *)
Lemma step_keeps_not_open s ev ws :
  (ws < next_socket s)%nat → is_open s ws = false →
  (ws < next_socket (state_of (step s ev)))%nat
  ∧ is_open (state_of (step s ev)) ws = false.
Proof.
  intros Hlt Hclosed.
  assert (∀ r ws', is_open (with_sockets s (alter (set_readyState r) ws' (sockets s))) ws
                   = false ∨ r = OPEN) as Halter.
  { intros r ws'. unfold is_open in *. simpl.
    destruct (decide (ws' = ws)) as [->|].
    - rewrite lookup_alter_eq. destruct (sockets s !! ws) as [k|]; simpl; [|by left].
      destruct r; try (by left). by right.
    - rewrite lookup_alter_ne by done. by left. }
  destruct ev as [|ws' k [v|a b c|]|ws'|ws']; simpl.
  - split; [lia|]. unfold is_open in *. simpl.
    rewrite lookup_insert_ne by lia. done.
  - assert (is_open (with_sockets s (alter (set_userId v) ws' (sockets s))) ws = false).
    { unfold is_open in *. simpl. destruct (decide (ws' = ws)) as [->|].
      - rewrite lookup_alter_eq. by destruct (sockets s !! ws).
      - by rewrite lookup_alter_ne. }
    repeat case_match; simpl; done.
  - destruct (insert_message _ _ _ _ _) as [e|d]; simpl; [done|].
    repeat case_match; simpl; done.
  - done.
  - split; [done|]. by destruct (Halter CLOSING ws').
  - unfold on_close. destruct (Halter CLOSED ws') as [H|]; [|done].
    repeat case_match; simpl; done.
Qed.

(** X4: a socket that has been handed out and is not open (it is closing,
    or closed) is never sent a frame again, whatever events follow: registry
    entries that still name it are harmless. *)
Theorem closed_socket_never_receives (s : server) (ws : nat) (evs : list event) :
  (ws < next_socket s)%nat → is_open s ws = false →
  ∀ to p, (to, p) ∈ frames_of (run s evs) → to ≠ ws.
Proof.
  revert s. induction evs as [|ev evs IH]; intros s Hlt Hclosed to p.
  - by intros ?%elem_of_nil.
  - rewrite frames_of_run_cons.
    pose proof (step_frames_open s ev to p) as Hopen.
    destruct (step_keeps_not_open s ev ws Hlt Hclosed) as [Hlt' Hclosed'].
    destruct (step s ev) as [s1 sent1|e s1 sent1]; simpl in *.
    + intros [Hin|Hin]%elem_of_app.
      * intros ->. apply Hopen in Hin. congruence.
      * by eapply IH.
    + intros Hin ->. apply Hopen in Hin. congruence.
Qed.

Lemma closed_socket_never_receives_witness :
  let s0 := state_of (run bound_to_first
                        [received 0 {| at_insert := 0; at_push := 0 |} (auth (Some 3));
                         closed 0]) in
  clients s0 !! 1 = Some 0%nat
  ∧ Forall (λ f, f.1 ≠ 0%nat)
      (frames_of (run s0 [received 1 {| at_insert := 0; at_push := 0 |}
                            (chat 2 1 (Some "hi"))])).
Proof.
  intros s0. split; [reflexivity|].
  apply Forall_forall. intros [to p] Hin.
  simpl. eapply (closed_socket_never_receives s0 0); [| |exact Hin];
    [vm_compute; lia | reflexivity].
Defined.

(** The messages table only grows. *)
Lemma run_messages_grow evs s :
  rows (messages (db s)) ⊆ rows (messages (db (state_of (run s evs)))).
Proof.
  apply (run_db_ind (λ d, rows (messages (db s)) ⊆ rows (messages d))); [|done].
  intros d now a b c d' Hd [= <-]. simpl. intros x Hx. apply elem_of_app. left. by apply Hd.
Qed.

Lemma step_frames_stored s ev to p :
  (to, p) ∈ frames_of (step s ev) →
  type p = "chat"
  ∧ ∃ row, last (rows (messages (db (state_of (step s ev))))) = Some row
           ∧ sender_id row = senderId p ∧ content p = Some (m_content row).
Proof.
  destruct ev as [|ws k [v|a b c|]|ws|ws]; simpl.
  - by intros ?%elem_of_nil.
  - repeat case_match; simpl; by intros ?%elem_of_nil.
  - destruct c as [c|]; simpl; [|by intros ?%elem_of_nil].
    destruct (clients s !! b) as [r|] eqn:Hr; [|by intros ?%elem_of_nil].
    destruct (is_open _ r); simpl; [|by intros ?%elem_of_nil].
    intros [= -> ->]%list_elem_of_singleton. simpl. rewrite last_snoc. simpl.
    split; [done|]. by eexists.
  - by intros ?%elem_of_nil.
  - by intros ?%elem_of_nil.
  - unfold on_close. repeat case_match; simpl; by intros ?%elem_of_nil.
Qed.

(** X5: every frame a run pushes is backed by a row of the messages table
    as the run leaves it, with the frame's sender and content: nothing is
    pushed that the history will not show. *)
Theorem pushed_frames_are_stored (s : server) (evs : list event) :
  ∀ to p, (to, p) ∈ frames_of (run s evs) →
    type p = "chat"
    ∧ ∃ row, row ∈ rows (messages (db (state_of (run s evs))))
             ∧ sender_id row = senderId p ∧ content p = Some (m_content row).
Proof.
  revert s. induction evs as [|ev evs IH]; intros s to p.
  - by intros ?%elem_of_nil.
  - rewrite frames_of_run_cons, state_of_run_cons.
    pose proof (step_frames_stored s ev to p) as Hstep.
    destruct (step s ev) as [s1 sent1|e s1 sent1]; simpl in *.
    + intros [Hin|Hin]%elem_of_app; [|by eapply IH].
      destruct (Hstep Hin) as (Hty & row & Hlast & Hs & Hc).
      split; [done|]. exists row. split; [|done].
      apply (run_messages_grow evs s1). apply last_Some in Hlast as [l ->].
      apply elem_of_app. right. left.
    + intros Hin. destruct (Hstep Hin) as (Hty & row & Hlast & Hs & Hc).
      split; [done|]. exists row. split; [|done].
      apply last_Some in Hlast as [l ->]. apply elem_of_app. right. left.
Qed.

Lemma pushed_frames_are_stored_witness :
  let o := run bound_to_first
             [received 1 {| at_insert := 1999; at_push := 2001 |} (chat 2 1 (Some "hi"));
              received 1 {| at_insert := 3000; at_push := 3000 |} (chat 2 1 None)] in
  length (frames_of o) = 1%nat
  ∧ Forall (λ f, ∃ row, row ∈ rows (messages (db (state_of o)))
                        ∧ sender_id row = senderId f.2
                        ∧ content f.2 = Some (m_content row))
      (frames_of o).
Proof.
  intros o. split; [reflexivity|].
  apply Forall_forall. intros [to p] Hin.
  destruct (pushed_frames_are_stored bound_to_first _ to p Hin) as [_ Hrow].
  exact Hrow.
Defined.

(** ** Closing and re-authenticating *)

(** X6: the close event of a socket sends nothing and leaves the database
    alone; the socket is not open afterwards; every registry entry other
    than that of the user id the socket authenticated as last is left as it
    was, and when the socket never authenticated with a user id that counts
    as true, the registry is exactly as before. *)
Theorem close_touches_own_binding_only (s : server) (ws : nat) :
  ∃ s',
    step s (closed ws) = Returned s' []
    ∧ db s' = db s
    ∧ is_open s' ws = false
    ∧ (∀ v, (∀ k, sockets s !! ws = Some k → userId k ≠ Some v) →
         clients s' !! v = clients s !! v)
    ∧ ((∀ k, sockets s !! ws = Some k → truthy (userId k) = false) →
       clients s' = clients s).
Proof.
  unfold step, on_close. simpl. rewrite lookup_alter_eq.
  assert (∀ c, is_open (with_clients
                          (with_sockets s (alter (set_readyState CLOSED) ws (sockets s))) c)
                 ws = false) as Hclosed.
  { intros c. unfold is_open. simpl. rewrite lookup_alter_eq.
    by destruct (sockets s !! ws). }
  destruct (sockets s !! ws) as [k|] eqn:Hk; simpl.
  - destruct (userId k) as [id|] eqn:Hid; simpl.
    + destruct (id =? 0) eqn:Hz; simpl.
      * eexists. split; [done|]. split; [done|]. split; [apply (Hclosed (clients s))|].
        split; [done|]. done.
      * eexists. split; [done|]. split; [done|]. split; [apply Hclosed|].
        simpl. split.
        -- intros v Hv. apply lookup_delete_ne. intros ->. by eapply Hv.
        -- intros Hfalsy. specialize (Hfalsy k eq_refl). rewrite Hid in Hfalsy.
           simpl in Hfalsy. by rewrite Hz in Hfalsy.
    + eexists. split; [done|]. split; [done|]. split; [apply (Hclosed (clients s))|].
      split; [done|]. done.
  - eexists. split; [done|]. split; [done|]. split; [apply (Hclosed (clients s))|].
    split; [done|]. done.
Qed.

(** X7: when a socket that authenticated as [u] sends a second auth
    frame with anything but [u] (another id, 0, or null), its close event no
    longer removes the entry of [u]: the registry still names the closed
    socket for [u]. *)
Theorem second_auth_leaves_stale_binding (s : server) (c : nat) (k1 k2 : clock)
    (u : Z) (v : option Z) (sk : socket) :
  u ≠ 0 → v ≠ Some u → sockets s !! c = Some sk →
  ∃ s',
    run s [received c k1 (auth (Some u)); received c k2 (auth v); closed c]
      = Returned s' []
    ∧ clients s' !! u = Some c
    ∧ is_open s' c = false.
Proof.
  intros Hu Hv Hsk.
  unfold run, step at 1. rewrite (on_message_auth _ _ _ u Hu).
  set (s1 := with_clients _ _).
  destruct (close_touches_own_binding_only (state_of (step s1 (received c k2 (auth v)))) c)
    as (s' & Hclose & _ & Hclosed & Hother & _).
  assert (∃ s2, step s1 (received c k2 (auth v)) = Returned s2 []
                ∧ clients s2 !! u = Some c
                ∧ ∀ k, sockets s2 !! c = Some k → userId k = v) as (s2 & Hs2 & Hc2 & Hk2).
  { unfold step, on_message. destruct v as [w|]; [destruct (truthy (Some w))|].
    - eexists. split; [done|]. simpl. split.
      + rewrite lookup_insert_ne by congruence. apply lookup_insert_eq.
      + intros k. rewrite !lookup_alter_eq, Hsk. by intros [= <-].
    - eexists. split; [done|]. simpl. split; [apply lookup_insert_eq|].
      intros k. rewrite !lookup_alter_eq, Hsk. by intros [= <-].
    - eexists. split; [done|]. simpl. split; [apply lookup_insert_eq|].
      intros k. rewrite !lookup_alter_eq, Hsk. by intros [= <-]. }
  rewrite Hs2 in *. change (state_of (Returned s2 [])) with s2 in *.
  rewrite Hclose.
  exists s'. split; [done|]. split; [|done].
  rewrite Hother; [done|]. intros k Hk. rewrite (Hk2 k Hk). done.
Qed.

Lemma second_auth_leaves_stale_binding_witness :
  ∃ s',
    run bound_to_first
      [received 1 {| at_insert := 0; at_push := 0 |} (auth (Some 2));
       received 1 {| at_insert := 0; at_push := 0 |} (auth None);
       closed 1] = Returned s' []
    ∧ clients s' !! 2 = Some 1%nat
    ∧ is_open s' 1 = false.
Proof.
  apply (second_auth_leaves_stale_binding bound_to_first 1 _ _ 2 None
           {| userId := None; readyState := OPEN |}); [lia | discriminate | reflexivity].
Defined.

(** ** Conversations do not mix *)

Lemma select_messages_other_pair d now a b c d' x y :
  insert_message d now a b c = inr d' →
  ¬ ((a = x ∧ b = y) ∨ (a = y ∧ b = x)) →
  select_messages d' x y = select_messages d x y.
Proof.
  destruct c as [c|]; [|done]. intros [= <-] Hpair. unfold select_messages. simpl.
  rewrite filter_app, filter_cons_False, filter_nil, app_nil_r; [done|].
  unfold exchanged. simpl. tauto.
Qed.

(** X8: the history of a pair of users is not changed by a run in which
    no chat frame goes from one of the two to the other, whatever else the
    run handles and however it ends. *)
Theorem history_unchanged_by_other_pairs (s : server) (evs : list event) (x y : Z) :
  (∀ ws k a b c, received ws k (chat a b c) ∈ evs →
     ¬ ((a = x ∧ b = y) ∨ (a = y ∧ b = x))) →
  get_messages (db (state_of (run s evs))) x y = get_messages (db s) x y.
Proof.
  unfold get_messages. intros Hevs. do 2 f_equal.
  revert s Hevs. induction evs as [|ev evs IH]; intros s Hevs; [done|].
  rewrite state_of_run_cons.
  assert (select_messages (db (state_of (step s ev))) x y = select_messages (db s) x y)
    as Hstep.
  { destruct (step_db s ev) as [->|(k & a & b & c & ws & -> & Hd)]; [done|].
    eapply select_messages_other_pair; [exact Hd|]. eapply Hevs. left. }
  destruct (step s ev) as [s1 sent1|e s1 sent1]; simpl in Hstep; [|done].
  rewrite <- Hstep. apply IH. intros ws k a b c Hin. eapply Hevs. right. exact Hin.
Qed.

Lemma history_unchanged_by_other_pairs_witness :
  get_messages
    (db (state_of (run bound_to_first
                     [received 1 {| at_insert := 0; at_push := 0 |} (chat 3 1 (Some "hi"));
                      received 1 {| at_insert := 0; at_push := 0 |} (chat 2 3 None)])))
    1 2
  = get_messages (db bound_to_first) 1 2.
Proof.
  apply history_unchanged_by_other_pairs.
  intros ws k a b c Hin.
  apply elem_of_cons in Hin as [[= _ _ -> -> _]|Hin]; [lia|].
  apply list_elem_of_singleton in Hin as [= _ _ -> -> _]. lia.
Defined.

(** ** The friends routes *)

(** X9: the two friends routes agree.  The profile route answers 200 for
    an id exactly when the listing route lists a user with that id, and the
    row it returns is one of the listed rows; otherwise it answers 404.  The
    listing holds friend-role users only. *)
Theorem profile_agrees_with_listing (d : database) (id : Z) :
  ∃ listing,
    get_friends d = {| status_code := 200; res_body := json_users listing |}
    ∧ Forall (λ u, u_role u = friend) listing
    ∧ (∀ u, get_friend d id = {| status_code := 200; res_body := json_user u |} →
         u ∈ listing ∧ u_id u = id)
    ∧ ((∃ u, u ∈ listing ∧ u_id u = id) ↔ status_code (get_friend d id) = 200)
    ∧ ((¬ ∃ u, u ∈ listing ∧ u_id u = id) ↔
       get_friend d id
       = {| status_code := 404; res_body := json_error "Friend not found" |}).
Proof.
  exists (filter is_friend (rows (users d))). split; [done|].
  split. { apply Forall_forall. by intros u [? _]%list_elem_of_filter. }
  assert (∀ u, u ∈ filter (is_friend_with_id id) (rows (users d)) ↔
               u ∈ filter is_friend (rows (users d)) ∧ u_id u = id) as Hiff.
  { intros u. rewrite !list_elem_of_filter. unfold is_friend_with_id, is_friend. tauto. }
  unfold get_friend.
  destruct (filter (is_friend_with_id id) (rows (users d))) as [|f l] eqn:Hf; simpl.
  - split; [done|].
    assert (¬ ∃ u, u ∈ filter is_friend (rows (users d)) ∧ u_id u = id) as Hno.
    { intros (u & Hu). apply Hiff in Hu. by apply elem_of_nil in Hu. }
    split; [split; [done|done]|]. done.
  - assert (f ∈ filter is_friend (rows (users d)) ∧ u_id f = id) as Hfl
      by (apply Hiff; left).
    split; [by intros u [= <-]|]. split; [split; [done|by exists f]|].
    split; [intros Hno; exfalso; apply Hno; by exists f | done].
Qed.

(** ** Booking requests in sequence *)

(** X10: booking requests served one after the other get consecutive ids,
    starting after the table's counter; a rejected request uses up no id and
    stores nothing; the new rows carry exactly the ids handed out, in order;
    users and messages are left alone. *)
Theorem bookings_get_consecutive_ids (reqs : list (Z * booking_request)) (d : database) :
  ∃ new,
    rows (bookings (post_all d reqs).1) = rows (bookings d) ++ new
    ∧ b_id <$> new = assigned_ids (post_all d reqs).2
    ∧ assigned_ids (post_all d reqs).2
      = seqZ (last_rowid (bookings d) + 1) (Z.of_nat (length new))
    ∧ last_rowid (bookings (post_all d reqs).1)
      = last_rowid (bookings d) + Z.of_nat (length new)
    ∧ length (post_all d reqs).2 = length reqs
    ∧ users (post_all d reqs).1 = users d
    ∧ messages (post_all d reqs).1 = messages d.
Proof.
  revert d. induction reqs as [|[now r] reqs IH]; intros d.
  - exists []. simpl. rewrite app_nil_r. split_and!; try done. lia.
  - simpl. unfold post_bookings, insert_booking.
    destruct (references_user d (customerId r) && references_user d (friendId r)); simpl.
    + match goal with |- context [post_all ?d1 reqs] =>
        destruct (IH d1) as (new & Hrows & Hids & Hseq & Hlast & Hlen & Hu & Hm);
        destruct (post_all d1 reqs) as [d2 ress] eqn:Hpost
      end.
      simpl in *. eexists (_ :: new). rewrite Hrows, <- app_assoc. simpl.
      split_and!; try done.
      * simpl. f_equal. exact Hids.
      * rewrite Hseq, (seqZ_cons (last_rowid (bookings d) + 1)) by lia.
        do 2 f_equal; lia.
      * lia.
      * by rewrite Hlen.
    + destruct (IH d) as (new & Hrows & Hids & Hseq & Hlast & Hlen & Hu & Hm).
      destruct (post_all d reqs) as [d2 ress] eqn:Hpost.
      simpl in *. exists new. split_and!; try done. by rewrite Hlen.
Qed.

(** * Further properties of the registry and of the users table *)

Lemma run_state_ind (I : server → Prop) :
  (∀ s ev, I s → I (state_of (step s ev))) →
  ∀ evs s, I s → I (state_of (run s evs)).
Proof.
  intros Hstep. induction evs as [|ev evs IH]; intros s Hs; [done|].
  rewrite state_of_run_cons. specialize (Hstep s ev Hs).
  destruct (step s ev) as [s1 sent1|e s1 sent1]; simpl in Hstep; [by apply IH|done].
Qed.

Lemma step_keeps_zero_unbound s ev :
  clients s !! 0 = None → clients (state_of (step s ev)) !! 0 = None.
Proof.
  intros Hz. destruct ev as [|ws k [v|a b c|]|ws|ws]; simpl; try done.
  - destruct v as [id|]; [|done]. simpl.
    destruct (Z.eqb_spec id 0) as [->|Hne]; simpl; [done|].
    by rewrite lookup_insert_ne.
  - destruct (insert_message _ _ _ _ _); simpl; [done|]. by repeat case_match.
  - unfold on_close. repeat case_match; simpl; try done.
    destruct (decide (0 = z)) as [<-|]; [apply lookup_delete_eq|].
    by rewrite lookup_delete_ne by done.
Qed.

(** X16: user id 0 is never registered: an auth frame with id 0 (or null)
    binds nothing, so after any run from a registry without an entry for 0
    there is still none, and a chat frame addressed to receiver 0 is stored
    but never pushed to anyone. *)
Theorem zero_is_never_registered (s : server) (evs : list event) :
  clients s !! 0 = None →
  clients (state_of (run s evs)) !! 0 = None
  ∧ ∀ ws k a c, frames_of (on_message ws k (chat a 0 c) (state_of (run s evs))) = [].
Proof.
  intros Hz.
  assert (clients (state_of (run s evs)) !! 0 = None) as Hz'.
  { apply (run_state_ind (λ s, clients s !! 0 = None)); [|done].
    apply step_keeps_zero_unbound. }
  split; [done|]. intros ws k a c. unfold on_message.
  destruct (insert_message _ _ _ _ _); simpl; [done|]. by rewrite Hz'.
Qed.

Lemma zero_is_never_registered_witness :
  let evs := [received 1 {| at_insert := 0; at_push := 0 |} (auth (Some 0));
              received 0 {| at_insert := 0; at_push := 0 |} (auth None)] in
  clients (state_of (run bound_to_first evs)) !! 0 = None
  ∧ frames_of (on_message 0 {| at_insert := 0; at_push := 0 |} (chat 1 0 (Some "hi"))
                 (state_of (run bound_to_first evs))) = [].
Proof.
  intros evs.
  destruct (zero_is_never_registered bound_to_first evs) as [Hz Hnone]; [reflexivity|].
  split; [exact Hz | apply Hnone].
Defined.

(** X17: inserting a user and looking the profile up.  With the tables'
    keys in order, an insert whose email address is already in the table is
    refused; any other insert appends the row under the next rowid, after
    which the profile route finds that row under its id when it has the
    friend role, answers 404 for that id when it has not, and answers for
    every other id what it answered before. *)
Theorem inserted_user_is_found (d : database) (mk : Z → user) :
  (∀ id, u_id (mk id) = id) → db_ok d →
  let u := mk (last_rowid (users d) + 1) in
  (email u ∈ email <$> rows (users d) →
   insertUser d mk = inl (SQLITE_CONSTRAINT_UNIQUE "users.email"))
  ∧ (email u ∉ email <$> rows (users d) →
     ∃ d',
       insertUser d mk = inr d'
       ∧ rows (users d') = rows (users d) ++ [u]
       ∧ (u_role u = friend →
          get_friend d' (u_id u) = {| status_code := 200; res_body := json_user u |})
       ∧ (u_role u ≠ friend →
          get_friend d' (u_id u)
          = {| status_code := 404; res_body := json_error "Friend not found" |})
       ∧ ∀ id, id ≠ u_id u → get_friend d' id = get_friend d id).
Proof.
  intros Hmk (Hu & _) u. unfold insertUser. fold u. split.
  - intros Hdup. by rewrite bool_decide_eq_true_2.
  - intros Hfresh. rewrite bool_decide_eq_false_2 by done.
    eexists. split; [done|]. simpl. fold u. split; [done|].
    assert (u_id u = last_rowid (users d) + 1) as Hid by apply Hmk.
    assert (filter (is_friend_with_id (u_id u)) (rows (users d)) = []) as Hold.
    { apply filter_none. intros r Hr [Hrid _].
      destruct Hu as (_ & _ & Hrows). eapply Forall_forall in Hrows; [|exact Hr].
      simpl in Hrows. lia. }
    unfold get_friend. simpl. fold u. split_and!.
    + intros Hrole. rewrite filter_app, Hold, filter_cons_True by done. done.
    + intros Hrole. rewrite filter_app, Hold, filter_cons_False; [done|].
      by intros [_ ?].
    + intros id Hne. rewrite filter_app, (filter_cons_False _ u); [|by intros [? _]].
      by rewrite filter_nil, app_nil_r.
Qed.

Lemma inserted_user_is_found_witness :
  let mk := seed_user "Meera" "meera@example.com" friend "Chennai" 25
              "Tamil, English" "Music" "Concert companion." 700 1 (46 # 10) in
  ∃ d',
    insertUser initial_db mk = inr d'
    ∧ get_friend d' 5 = {| status_code := 200; res_body := json_user (mk 5) |}
    ∧ insertUser d' mk = inl (SQLITE_CONSTRAINT_UNIQUE "users.email").
Proof.
  intros mk.
  destruct (inserted_user_is_found initial_db mk) as [_ Hnew];
    [done|exact initial_db_ok|].
  destruct Hnew as (d' & Hins & _ & Hget & _).
  { apply (bool_decide_unpack _). reflexivity. }
  exists d'. split; [exact Hins|]. split; [by apply Hget|].
  injection Hins as <-. reflexivity.
Defined.

(** * Properties of the client *)

(** ** Trimming and splitting *)

Lemma trimEnd_empty s : trimEnd s = "" ↔ blank s.
Proof.
  unfold blank. induction s as [|c s IH]; simpl; [by split; [constructor|]|].
  rewrite Forall_cons. destruct (trimEnd s) as [|c' t].
  - destruct (white_space c); split; try done.
    + intros _. split; [done|]. by apply IH.
    + by intros [? _].
  - split; [done|]. intros [_ Hs]. by apply IH in Hs.
Qed.

Lemma trimStart_first s :
  trimStart s = "" ∨ ∃ c t, trimStart s = String c t ∧ white_space c = false.
Proof.
  induction s as [|c s IH]; simpl; [by left|].
  destruct (white_space c) eqn:Hc; [done|]. right. by exists c, s.
Qed.

Lemma trimStart_empty s : trimStart s = "" ↔ blank s.
Proof.
  unfold blank. induction s as [|c s IH]; simpl; [by split; [constructor|]|].
  rewrite Forall_cons. destruct (white_space c); split; try done.
  - intros Hs. split; [done|]. by apply IH.
  - intros [_ Hs]. by apply IH.
  - by intros [? _].
Qed.

Lemma trim_empty s : trim s = "" ↔ blank s.
Proof.
  unfold trim. rewrite trimEnd_empty. split.
  - intros Hb. apply trimStart_empty.
    destruct (trimStart_first s) as [?|(c & t & Hs & Hc)]; [done|].
    rewrite Hs in Hb. unfold blank in Hb. simpl in Hb.
    apply Forall_cons in Hb as [Hc' _]. congruence.
  - intros Hb. apply trimStart_empty in Hb. rewrite Hb. constructor.
Qed.

Lemma trimEnd_first c t :
  white_space c = false → ∃ t', trimEnd (String c t) = String c t'.
Proof. intros Hc. simpl. destruct (trimEnd t); [rewrite Hc|]; by eexists. Qed.

Lemma split_units sep s t c :
  t ∈ split sep s → c ∈ String.list_ascii_of_string t →
  c ≠ sep ∧ c ∈ String.list_ascii_of_string s.
Proof.
  revert t. induction s as [|c' s IH]; intros t; simpl.
  - intros ->%list_elem_of_singleton. by intros ?%elem_of_nil.
  - destruct (Ascii.eqb_spec c' sep) as [->|Hne].
    + intros [->|Ht]%elem_of_cons; [by intros ?%elem_of_nil|].
      intros Hc. destruct (IH t Ht Hc). split; [done|by right].
    + destruct (split sep s) as [|t0 ts] eqn:Hs.
      * intros ->%list_elem_of_singleton. simpl.
        intros ->%list_elem_of_singleton. split; [done|left].
      * intros [->|Ht]%elem_of_cons; simpl.
        -- intros [->|Hc]%elem_of_cons; [split; [done|left]|].
           destruct (IH t0 (list_elem_of_here _ _) Hc). split; [done|by right].
        -- intros Hc.
           destruct (IH t (list_elem_of_further _ _ _ Ht) Hc). split; [done|by right].
Qed.

Lemma split_length sep s :
  length (split sep s)
  = S (length (filter (λ c, c = sep) (String.list_ascii_of_string s))).
Proof.
  induction s as [|c s IH]; simpl; [done|].
  rewrite filter_cons. destruct (Ascii.eqb_spec c sep) as [->|Hne].
  - rewrite decide_True by done. simpl. by rewrite IH.
  - rewrite decide_False by done. rewrite <- IH.
    destruct (split sep s); [done|done].
Qed.

Lemma split_cons sep s : ∃ t ts, split sep s = t :: ts.
Proof.
  destruct s as [|c s]; simpl; [by eexists _, _|].
  destruct (Ascii.eqb c sep); [by eexists _, _|].
  destruct (split sep s); by eexists _, _.
Qed.

Lemma split_concat sep s : String.concat (String sep "") (split sep s) = s.
Proof.
  induction s as [|c s IH]; [done|].
  destruct (split_cons sep s) as (t & ts & Hs).
  simpl split. rewrite Hs in *.
  destruct (Ascii.eqb_spec c sep) as [->|Hne].
  - change (String.concat (String sep "") ("" :: t :: ts))
      with (String sep (String.concat (String sep "") (t :: ts))).
    by rewrite IH.
  - rewrite <- IH. by destruct ts.
Qed.

Lemma white_space_units c :
  white_space c = true ↔ Ascii.nat_of_ascii c ∈ [9; 10; 11; 12; 13; 32; 160]%nat.
Proof. unfold white_space. apply bool_decide_eq_true. Qed.

Lemma trimStart_prefix s :
  ∃ pre, String.list_ascii_of_string s = pre ++ String.list_ascii_of_string (trimStart s)
         ∧ Forall (λ c, white_space c = true) pre.
Proof.
  induction s as [|c s (pre & Hs & Hpre)]; simpl; [by exists []|].
  destruct (white_space c) eqn:Hc.
  - exists (c :: pre). simpl. rewrite Hs at 1. split; [done|]. by constructor.
  - by exists [].
Qed.

Lemma trimEnd_suffix s :
  ∃ post, String.list_ascii_of_string s = String.list_ascii_of_string (trimEnd s) ++ post
          ∧ Forall (λ c, white_space c = true) post.
Proof.
  induction s as [|c s (post & Hs & Hpost)]; simpl; [by exists []|].
  destruct (trimEnd s) as [|c' t] eqn:Ht; simpl in *.
  - destruct (white_space c) eqn:Hc; simpl.
    + exists (c :: post). rewrite Hs. split; [done|]. by constructor.
    + exists post. by rewrite Hs.
  - exists post. by rewrite Hs.
Qed.

Lemma trim_head s c :
  head (String.list_ascii_of_string (trim s)) = Some c → white_space c = false.
Proof.
  unfold trim. destruct (trimStart_first s) as [->|(c' & t & -> & Hc')]; [done|].
  destruct (trimEnd_first c' t Hc') as [t' ->]. simpl. by intros [= <-].
Qed.

Lemma trimEnd_last s c :
  last (String.list_ascii_of_string (trimEnd s)) = Some c → white_space c = false.
Proof.
  induction s as [|c0 s IH]; simpl; [done|].
  destruct (trimEnd s) as [|c' t] eqn:Ht; simpl in *.
  - destruct (white_space c0) eqn:Hc0; simpl; [done|]. by intros [= <-].
  - exact IH.
Qed.

(** X11: the tags of an interests text.  The text is cut at its commas
    into pieces: joining the pieces with commas gives the text back, no piece
    contains a comma, and n commas give n + 1 pieces (an empty text gives one
    empty piece).  Each piece is shown as one tag, in order; the tag is the
    piece without a leading and a trailing run of white space (TAB, LF, VT,
    FF, CR, SP, NBSP), and it neither begins nor ends with white space. *)
Theorem interest_tags_trimmed (interests : string) :
  let white c := Ascii.nat_of_ascii c ∈ [9; 10; 11; 12; 13; 32; 160]%nat in
  ∃ pieces,
    String.concat (String comma "") pieces = interests
    ∧ Forall (λ piece, comma ∉ String.list_ascii_of_string piece) pieces
    ∧ length pieces
      = S (length (filter (λ c, c = comma) (String.list_ascii_of_string interests)))
    ∧ Forall2
        (λ piece tag,
           (∃ pre post,
              String.list_ascii_of_string piece
              = pre ++ String.list_ascii_of_string tag ++ post
              ∧ Forall white pre ∧ Forall white post)
           ∧ (∀ c, head (String.list_ascii_of_string tag) = Some c → ¬ white c)
           ∧ (∀ c, last (String.list_ascii_of_string tag) = Some c → ¬ white c))
        pieces (interest_tags interests).
Proof.
  intros white. exists (split comma interests).
  assert (∀ c, white_space c = false → ¬ white c) as Hnot.
  { intros c Hc Hw. apply white_space_units in Hw. congruence. }
  assert (∀ l, Forall (λ c, white_space c = true) l → Forall white l) as Hall.
  { intros l Hl. eapply Forall_impl; [exact Hl|]. intros c. apply white_space_units. }
  split; [apply split_concat|]. split.
  { apply Forall_forall. intros piece Hp Hc. by destruct (split_units _ _ _ _ Hp Hc). }
  split; [apply split_length|].
  unfold interest_tags. apply Forall2_fmap_r, Forall_Forall2_diag, Forall_forall.
  intros piece _. simpl. split; [|split].
  - destruct (trimStart_prefix piece) as (pre & Hpre & Hwpre).
    destruct (trimEnd_suffix (trimStart piece)) as (post & Hpost & Hwpost).
    exists pre, post. unfold trim. rewrite Hpre at 1. rewrite Hpost at 1.
    split; [done|]. split; by apply Hall.
  - intros c Hc. by eapply Hnot, trim_head.
  - intros c Hc. by eapply Hnot, trimEnd_last.
Qed.

(** ** The cost of a booking *)

(** X12: the four options of the duration select count as the hours in
    their label, 1, 3, 6 and 12; any other text counts as one hour.  For an
    hourly rate that is a non-negative integer with twelve times the rate at
    most 2^53 (where the product of the doubles is exact), the total cost is
    the rate times those hours, so it lies between one and twelve times the
    rate. *)
Theorem duration_hours_and_cost (duration : string) (rate : Z) :
  let options := ["1 Hour"; "3 Hours"; "Half Day (6 Hours)"; "Full Day (12 Hours)"] in
  getDurationHours <$> options = [1; 3; 6; 12]
  ∧ (duration ∉ options → getDurationHours duration = 1)
  ∧ getDurationHours duration ∈ [1; 3; 6; 12]
  ∧ (0 ≤ rate → 12 * rate ≤ 2 ^ 53 →
     (λ text, totalCost rate text) <$> options
     = [Some rate; Some (3 * rate); Some (6 * rate); Some (12 * rate)]
     ∧ (duration ∉ options → totalCost rate duration = Some rate)
     ∧ ∃ cost, totalCost rate duration = Some cost ∧ rate ≤ cost ∧ cost ≤ 12 * rate).
Proof.
  intros options. split; [reflexivity|].
  assert (duration ∉ options → getDurationHours duration = 1) as Hother.
  { intros Hout. unfold getDurationHours.
    repeat case_decide; subst; try done; exfalso; apply Hout; set_solver. }
  assert (getDurationHours duration ∈ [1; 3; 6; 12]) as Hin.
  { unfold getDurationHours. repeat case_decide; set_solver. }
  split; [done|]. split; [done|].
  intros Hrate Hmax.
  assert (2 ^ 53 = 9007199254740992) as Hpow by reflexivity.
  assert (∀ text n, getDurationHours text = n → n ∈ [1; 3; 6; 12] →
            totalCost rate text = Some (n * rate)) as Hcost.
  { intros text n <- Htext. unfold totalCost. simpl.
    rewrite !elem_of_cons, elem_of_nil in Htext.
    rewrite decide_True by lia. f_equal. lia. }
  split; [|split].
  - simpl.
    rewrite (Hcost "1 Hour" 1), (Hcost "3 Hours" 3), (Hcost "Half Day (6 Hours)" 6),
      (Hcost "Full Day (12 Hours)" 12);
      try reflexivity; try (rewrite !elem_of_cons; tauto).
    by rewrite Z.mul_1_l.
  - intros Hout. rewrite (Hcost duration 1); [by rewrite Z.mul_1_l|by apply Hother|].
    rewrite !elem_of_cons; tauto.
  - exists (getDurationHours duration * rate). split; [by apply Hcost|].
    rewrite !elem_of_cons, elem_of_nil in Hin. lia.
Qed.

(** ** The chat widget *)

(** The echo sendMessage adds to the widget's list. *)
Lemma sendMessage_cases now w :
  (blank (input w) ∨ ws_current w = None) ∧ sendMessage now w
    = {| after := w; transmitted := None; InvalidStateError := false |}
  ∨ (¬ blank (input w) ∧ ws_current w = Some CONNECTING) ∧ sendMessage now w
    = {| after := w; transmitted := None; InvalidStateError := true |}
  ∨ ∃ st, (¬ blank (input w) ∧ ws_current w = Some st ∧ st ≠ CONNECTING)
    ∧ sendMessage now w
      = {| after :=
             {| w_friend := w_friend w; currentUserId := currentUserId w;
                w_messages :=
                  w_messages w ++
                  [{| v_id := None; v_sender_id := currentUserId w;
                      v_receiver_id := w_friend w; v_content := Some (input w);
                      v_created_at := iso_datetime (toISOString now) |}];
                input := ""; ws_current := ws_current w |};
           transmitted :=
             if bool_decide (st = OPEN)
             then Some (chat (currentUserId w) (w_friend w) (Some (input w)))
             else None;
           InvalidStateError := false |}.
Proof.
  unfold sendMessage. case_bool_decide as Hb; rewrite trim_empty in Hb.
  - left. split; [by left|done].
  - destruct (ws_current w) as [[]|] eqn:Hws.
    + right. left. done.
    + right. right. exists OPEN. done.
    + right. right. exists CLOSING. done.
    + right. right. exists CLOSED. done.
    + left. split; [by right|done].
Qed.

(** X13: sendMessage puts a frame on the wire exactly when the input has
    a code unit that is not white space and the socket is open.  It ends in
    an InvalidStateError, with the widget unchanged, exactly when such an
    input meets a socket that is still connecting.  It shows the echo and
    clears the input exactly when such an input meets a socket that is open,
    closing or closed; so on a closing or closed socket the message is shown
    to its author although nothing was sent.  In every other case the widget
    stays as it is. *)
Theorem sendMessage_sends_iff_open_and_not_blank (now : Z) (w : ChatWidget) :
  let o := sendMessage now w in
  let echo := {| v_id := None; v_sender_id := currentUserId w;
                 v_receiver_id := w_friend w; v_content := Some (input w);
                 v_created_at := iso_datetime (toISOString now) |} in
  (transmitted o = Some (chat (currentUserId w) (w_friend w) (Some (input w)))
   ∨ transmitted o = None)
  ∧ (is_Some (transmitted o) ↔ ¬ blank (input w) ∧ ws_current w = Some OPEN)
  ∧ (InvalidStateError o = true ↔ ¬ blank (input w) ∧ ws_current w = Some CONNECTING)
  ∧ (w_messages (after o) = w_messages w ++ [echo] ∧ input (after o) = ""
     ∨ after o = w)
  ∧ (after o ≠ w ↔
     ¬ blank (input w) ∧ ∃ st, ws_current w = Some st ∧ st ≠ CONNECTING).
Proof.
  intros o echo. subst o.
  destruct (sendMessage_cases now w)
    as [[Hc ->]|[[[Hb Hws] ->]|(st & (Hb & Hws & Hst) & ->)]]; simpl.
  - split; [by right|]. split.
    { split; [by intros [? ?]|]. intros [Hb Hws]. destruct Hc; congruence. }
    split. { split; [done|]. intros [Hb Hws]. destruct Hc; congruence. }
    split; [by right|]. split; [done|].
    intros [Hb (st & Hws & _)]. destruct Hc; congruence.
  - split; [by right|]. split.
    { split; [by intros [? ?]|]. intros [_ ?]. congruence. }
    split; [done|]. split; [by right|]. split; [done|].
    intros [_ (st & Hws' & Hst)]. congruence.
  - split; [case_bool_decide; [by left|by right]|]. split.
    { case_bool_decide as Hopen.
      - subst st. split; [intros _; split; assumption|]. intros _. by eexists.
      - split; [by intros [? ?]|]. intros [_ ?]. congruence. }
    split. { split; [done|]. intros [_ ?]. congruence. }
    split; [by left|]. split; [intros _; split; [done|by exists st]|].
    intros _ Heq. apply (f_equal (λ x, length (w_messages x))) in Heq.
    simpl in Heq. rewrite length_app in Heq. simpl in Heq. lia.
Qed.

(** X14: a frame that sendMessage puts on the wire is never rejected by
    the relay: in any server state the handler returns normally and stores a
    row that has the sender, the receiver and the content of the echo the
    widget shows, a content that is not blank. *)
Theorem widget_frame_is_stored (now : Z) (w : ChatWidget) (f : frame)
    (s : server) (ws : nat) (k : clock) :
  transmitted (sendMessage now w) = Some f →
  ∃ s' sent echo row,
    on_message ws k f s = Returned s' sent
    ∧ last (w_messages (after (sendMessage now w))) = Some echo
    ∧ rows (messages (db s')) = rows (messages (db s)) ++ [row]
    ∧ sender_id row = currentUserId w ∧ v_sender_id echo = currentUserId w
    ∧ receiver_id row = w_friend w ∧ v_receiver_id echo = w_friend w
    ∧ m_content row = input w ∧ v_content echo = Some (input w)
    ∧ ¬ blank (m_content row).
Proof.
  destruct (sendMessage_cases now w)
    as [[Hc ->]|[[[Hb Hws] ->]|(st & (Hb & Hws & Hst) & ->)]]; simpl; try done.
  case_bool_decide; [|done]. intros [= <-].
  destruct (on_message_chat s ws k (currentUserId w) (w_friend w) (input w))
    as (d & sent & Hd & Hrun & _).
  destruct (insert_message_rows (db s) (at_insert k) (currentUserId w) (w_friend w) (input w))
    as (d' & Hd' & Hrows & _).
  assert (d' = d) as -> by congruence.
  eexists _, sent, _, _. split; [exact Hrun|]. rewrite last_snoc.
  split; [done|]. split; [exact Hrows|]. done.
Qed.

Lemma widget_frame_is_stored_witness :
  let w := {| w_friend := 2; currentUserId := 1; w_messages := [];
              input := " hello "; ws_current := Some OPEN |} in
  ∃ s' sent row,
    on_message 0 {| at_insert := 0; at_push := 0 |} (chat 1 2 (Some " hello "))
      bound_to_first = Returned s' sent
    ∧ rows (messages (db s')) = rows (messages (db bound_to_first)) ++ [row]
    ∧ m_content row = " hello ".
Proof.
  intros w.
  destruct (widget_frame_is_stored 0 w (chat 1 2 (Some " hello ")) bound_to_first 0
              {| at_insert := 0; at_push := 0 |})
    as (s' & sent & echo & row & Hrun & _ & Hrows & _ & _ & _ & _ & Hc & _);
    [reflexivity|].
  exists s', sent, row. split; [exact Hrun|]. split; [exact Hrows|exact Hc].
Defined.

(** X15: from one widget to the other.  When a widget puts a frame on the
    wire and the registry names an open socket for the friend it is
    addressed to, the relay pushes one frame to that socket; a widget there
    that is open on the sender appends a message with the sender, its own
    user id as receiver, the text as it was typed and the time of the push; a
    widget that is open on anyone else ignores the frame. *)
Theorem widget_to_widget (now : Z) (wA wB : ChatWidget) (f : frame)
    (s : server) (ws to : nat) (k : clock) :
  transmitted (sendMessage now wA) = Some f →
  deliverable s (w_friend wA) to →
  ∃ s' p,
    on_message ws k f s = Returned s' [(to, p)]
    ∧ (w_friend wB = currentUserId wA →
       onmessage wB p
       = {| w_friend := w_friend wB; currentUserId := currentUserId wB;
            w_messages :=
              w_messages wB ++
              [{| v_id := None; v_sender_id := currentUserId wA;
                  v_receiver_id := currentUserId wB; v_content := Some (input wA);
                  v_created_at := iso_datetime (toISOString (at_push k)) |}];
            input := input wB; ws_current := ws_current wB |})
    ∧ (w_friend wB ≠ currentUserId wA → onmessage wB p = wB).
Proof.
  destruct (sendMessage_cases now wA)
    as [[Hc ->]|[[[Hb Hws] ->]|(st & (Hb & Hws & Hst) & ->)]]; simpl; try done.
  case_bool_decide; [|done]. intros [= <-] Hdel.
  destruct (on_message_chat s ws k (currentUserId wA) (w_friend wA) (input wA))
    as (d & sent & Hd & Hrun & Hsent).
  pose proof (on_message_chat_sent_length _ _ _ _ _ _ _ _ Hrun) as Hlen.
  assert ((to, {| type := "chat"; senderId := currentUserId wA;
                  content := Some (input wA);
                  createdAt := toISOString (at_push k) |}) ∈ sent) as Hin
    by (by apply Hsent).
  destruct sent as [|x [|y sent]]; [by apply elem_of_nil in Hin| |simpl in Hlen; lia].
  apply list_elem_of_singleton in Hin as <-.
  eexists _, _. split; [exact Hrun|]. unfold onmessage. simpl. split.
  - intros Heq. rewrite bool_decide_eq_true_2 by done. done.
  - intros Hne. rewrite bool_decide_eq_false_2; [done|]. intros [_ ?]. congruence.
Qed.

Lemma widget_to_widget_witness :
  let wA := {| w_friend := 1; currentUserId := 2; w_messages := [];
               input := "hello"; ws_current := Some OPEN |} in
  let wB := {| w_friend := 2; currentUserId := 1; w_messages := [];
               input := ""; ws_current := Some OPEN |} in
  ∃ s' p,
    on_message 1 {| at_insert := 1999; at_push := 2001 |} (chat 2 1 (Some "hello"))
      bound_to_first = Returned s' [(0%nat, p)]
    ∧ v_content <$> w_messages (onmessage wB p) = [Some "hello"].
Proof.
  intros wA wB.
  destruct (widget_to_widget 0 wA wB (chat 2 1 (Some "hello")) bound_to_first 1 0
              {| at_insert := 1999; at_push := 2001 |})
    as (s' & p & Hrun & Hshow & _).
  - reflexivity.
  - split; [reflexivity|]. eexists. split; reflexivity.
  - exists s', p. split; [exact Hrun|]. rewrite Hshow; reflexivity.
Defined.
